(** * dircmp: files of one directory tree with no byte-identical file in another

    A shallow embedding of [dircmp.py].  The script lists the files below
    [directory_l], sorts them, indexes the files below [directory_r] by size
    and reports every file of the first tree that no file of the second tree
    of the same size equals byte for byte.

    Python values are modelled as follows.
    - [str] is [string]; comparison of strings is the byte-wise lexicographic
      order, which coincides with Python's code point order on UTF-8 text.
    - [int] is [Z].
    - A raised exception is the [Raise] outcome of [result].
    - The standard output stream, the module-level global [progress] and the
      trace of the calls of [filecmp.cmp] form the [world] that the
      statements of the script transform.
    - The file system is read only: a [filesystem] gives, for a path, the
      directory tree [os.walk] sees below it and the regular file it names. *)

From Stdlib Require Import ZArith Ascii String List Bool Lia.
From Stdlib Require Import Strings.Byte.
From Stdlib Require Import Sorting.Sorted Sorting.Permutation.
From stdpp Require Import base option list strings gmap.

Import ListNotations.
Local Open Scope string_scope.
Local Open Scope list_scope.
Local Open Scope Z_scope.

(** ** Exceptions and outcomes *)

Inductive exn : Type :=
| IndexError
| OSError
| ZeroDivisionError
| NameError
| SystemExit (code : Z).

Inductive result (A : Type) : Type :=
| Ok (a : A)
| Raise (e : exn).

Arguments Ok {A} a.
Arguments Raise {A} e.

#[global] Instance result_ret : MRet result := fun A a => Ok a.

#[global] Instance result_bind : MBind result := fun A B f r =>
  match r with
  | Ok a => f a
  | Raise e => Raise e
  end.

(** ** Strings and paths *)

(** [f[0]]: indexing the empty string raises [IndexError]. *)
Definition str_first (f : string) : result ascii :=
  match f with
  | EmptyString => Raise IndexError
  | String c _ => Ok c
  end.

(** ['*' * k]: a repetition count that is zero or negative gives ['']. *)
Definition str_repeat (s : string) (k : Z) : string :=
  String.concat "" (repeat s (Z.to_nat k)).

Definition startswith_sep (b : string) : bool :=
  match b with
  | String c _ => Ascii.eqb c "/"
  | EmptyString => false
  end.

Fixpoint endswith_sep (a : string) : bool :=
  match a with
  | EmptyString => false
  | String c EmptyString => Ascii.eqb c "/"
  | String _ a' => endswith_sep a'
  end.

(** [os.path.join(a, b)] of [posixpath]. *)
Definition os_path_join (a b : string) : string :=
  if startswith_sep b then b
  else if String.eqb a "" || endswith_sep a then a +:+ b
  else a +:+ "/" +:+ b.

(** ** The file system *)

(** What [os.scandir] finds under a name: a directory with its entries in
    listing order, or something that is not a directory. *)
#[warnings="-register-all"]
Inductive entry : Type :=
| FileEntry
| DirEntry (children : list (string * entry)).

(** A regular file: the modification time that [os.stat] reports and the
    bytes it holds. *)
Record file : Type := mkFile {
  st_mtime : Z;
  data : list byte
}.

(** A read-only file system holding directories and regular files.
    [fs_tree p] is the entry that path [p] names, [fs_file p] the regular
    file at [p]. *)
Record filesystem : Type := mkFs {
  fs_tree : string -> option entry;
  fs_file : string -> option file
}.

Definition os_path_isdir (fs : filesystem) (p : string) : bool :=
  match fs_tree fs p with
  | Some (DirEntry _) => true
  | _ => false
  end.

(** The signature [filecmp] takes from [os.stat]: size and modification
    time.  [os.stat] is modelled on regular files; on any other path it
    raises. *)
Definition os_stat (fs : filesystem) (p : string) : result (Z * Z) :=
  match fs_file fs p with
  | Some f => Ok (Z.of_nat (length (data f)), st_mtime f)
  | None => Raise OSError
  end.

Definition os_path_getsize (fs : filesystem) (p : string) : result Z :=
  s ← os_stat fs p; mret (fst s).

Definition is_dir (e : entry) : bool :=
  match e with
  | DirEntry _ => true
  | FileEntry => false
  end.

(** The two name lists [os.walk] builds from one directory listing. *)
Definition scandir_dirs (es : list (string * entry)) : list string :=
  map fst (List.filter (fun ne => is_dir (snd ne)) es).

Definition scandir_nondirs (es : list (string * entry)) : list string :=
  map fst (List.filter (fun ne => negb (is_dir (snd ne))) es).

(** The entry a name resolves to inside a listing, handed to [found]. *)
Definition with_entry {B : Type} (name : string) (found : entry -> B)
    (missing : B) : list (string * entry) -> B :=
  fix lookup (es : list (string * entry)) : B :=
    match es with
    | [] => missing
    | (n, sub) :: es' =>
        if String.eqb n name then found sub else lookup es'
    end.

(** ** Generators

    A generator run to its end: the values it yields, in order, and the
    exception that ends it when it does not finish normally.  A consumer
    sees every value yielded before the exception. *)
Definition gen (A : Type) : Type := (list A * option exn)%type.

Definition gen_app {A : Type} (g1 g2 : gen A) : gen A :=
  match snd g1 with
  | Some e => g1
  | None => (fst g1 ++ fst g2, snd g2)
  end.

Definition gen_flat_map {A B : Type} (f : A -> gen B) : list A -> gen B :=
  fix go (l : list A) : gen B :=
    match l with
    | [] => ([], None)
    | x :: l' => gen_app (f x) (go l')
    end.

(** [list(g)], [sorted(g)] and a [for] loop over [g] consume the whole
    generator: its exception, if any, becomes theirs. *)
Definition collect {A : Type} (g : gen A) : result (list A) :=
  match snd g with
  | Some e => Raise e
  | None => Ok (fst g)
  end.

(** [for dirpath, dirnames, filenames in os.walk(top): body], top down.

    [body] stands for the loop body: it receives the triple that [os.walk]
    yields and returns the directory name list as the body leaves it (the
    list object is shared with [os.walk], which descends into the names
    that remain) together with the values the body yields.  A path that
    cannot be listed contributes nothing, since [os.walk] ignores the
    errors of [os.scandir] when no [onerror] is given. *)
Fixpoint os_walk {A : Type}
    (body : string -> list string -> list string -> result (list string * list A))
    (top : string) (e : entry) {struct e} : gen A :=
  match e with
  | FileEntry => ([], None)
  | DirEntry es =>
      match body top (scandir_dirs es) (scandir_nondirs es) with
      | Raise x => ([], Some x)
      | Ok (dirs, out) =>
          gen_app (out, None)
            (gen_flat_map
               (fun name =>
                  with_entry name
                    (fun sub => os_walk body (os_path_join top name) sub)
                    ([], None) es)
               dirs)
      end
  end.

(** [[f for f in names if not f[0] == '.']] *)
Fixpoint not_hidden (names : list string) : result (list string) :=
  match names with
  | [] => Ok []
  | f :: names' =>
      c ← str_first f;
      rest ← not_hidden names';
      mret (if Ascii.eqb c "." then rest else f :: rest)
  end.

(** The body of the loop of [get_directory_file_paths]: the folder name
    list it leaves to [os.walk] and the paths it yields. *)
Definition get_directory_file_paths_body (include_hidden : bool)
    (directory_path : string) (folder_name_list file_name_list : list string)
    : result (list string * list string) :=
  r ← (if negb include_hidden then
         file_name_list ← not_hidden file_name_list;
         folder_name_list ← not_hidden folder_name_list;
         mret (folder_name_list, file_name_list)
       else mret (folder_name_list, file_name_list));
  mret (fst r, map (os_path_join directory_path) (snd r)).

Definition get_directory_file_paths (fs : filesystem) (top : string)
    (include_hidden : bool) : gen string :=
  match fs_tree fs top with
  | Some e => os_walk (get_directory_file_paths_body include_hidden) top e
  | None => ([], None)
  end.

(** The loop of [sizes_paths] over the paths a generator yields before it
    ends with [fin]. *)
Fixpoint sizes_of (fs : filesystem) (paths : list string) (fin : option exn)
    : gen (Z * string) :=
  match paths with
  | [] => ([], fin)
  | file_path :: paths' =>
      match os_path_getsize fs file_path with
      | Raise x => ([], Some x)
      | Ok size => gen_app ([(size, file_path)], None) (sizes_of fs paths' fin)
      end
  end.

Definition sizes_paths (fs : filesystem) (top : string) (include_hidden : bool)
    : gen (Z * string) :=
  let g := get_directory_file_paths fs top include_hidden in
  sizes_of fs (fst g) (snd g).

(** ** The state the script transforms *)

Record world : Type := mkWorld {
  stdout : string;                    (* everything printed so far *)
  progress : option Z;                (* the global [progress], unset at start *)
  cmp_calls : list (string * string)  (* the calls of [filecmp.cmp], oldest first *)
}.

Definition M (A : Type) : Type := world -> result A * world.

Definition ret {A : Type} (a : A) : M A := fun w => (Ok a, w).

Definition bind {A B : Type} (m : M A) (k : A -> M B) : M B := fun w =>
  match m w with
  | (Ok a, w') => k a w'
  | (Raise e, w') => (Raise e, w')
  end.

Definition lift {A : Type} (r : result A) : M A := fun w => (r, w).

Declare Scope M_scope.
Notation "x <- c1 ;; c2" := (bind c1 (fun x => c2))
  (at level 100, c1 at next level, c2 at level 200, right associativity)
  : M_scope.
Notation "c1 ;; c2" := (bind c1 (fun _ => c2))
  (at level 100, c2 at level 200, only parsing, right associativity)
  : M_scope.
Local Open Scope M_scope.

Definition newline : string := String (ascii_of_nat 10) "".

Definition chr (n : nat) : string := String (ascii_of_nat n) "".

(** [print(s, end=e)] *)
Definition print_end (s e : string) : M unit := fun w =>
  (Ok tt, mkWorld (stdout w +:+ s +:+ e) (progress w) (cmp_calls w)).

(** [print(s)] *)
Definition print (s : string) : M unit := print_end s newline.

(** [sys.stdout.flush()]: the stream is modelled unbuffered. *)
Definition sys_stdout_flush : M unit := ret tt.

(** [sys.exit(code)] *)
Definition sys_exit {A : Type} (code : Z) : M A := lift (Raise (SystemExit code)).

(** Reading the global [progress] before its first assignment raises. *)
Definition get_progress : M Z := fun w =>
  match progress w with
  | Some p => (Ok p, w)
  | None => (Raise NameError, w)
  end.

Definition set_progress (p : Z) : M unit := fun w =>
  (Ok tt, mkWorld (stdout w) (Some p) (cmp_calls w)).

(** ** Floating point

    The progress bar computes with Python floats.  Their arithmetic is kept
    abstract: the embedding is parametric in the four operations that the
    script applies, so that every statement below holds whichever values
    binary64 arithmetic produces.  None of the four raises on the finite
    values that occur here; the division by zero is raised by
    [py_truediv]. *)
Class PyFloat : Type := {
  pyfloat : Type;
  int_truediv : Z -> Z -> pyfloat;          (* [a / b] on ints, [b] not zero *)
  float_mul : pyfloat -> Z -> pyfloat;      (* [x * k] *)
  float_floordiv : pyfloat -> Z -> pyfloat; (* [x // k] *)
  int_of_float : pyfloat -> Z               (* [int(x)] *)
}.

(** Exact rational arithmetic on fractions, to run the script on examples. *)
#[global] Instance exact_float : PyFloat := {|
  pyfloat := Z * Z;
  int_truediv := fun a b => (a, b);
  float_mul := fun x k => (fst x * k, snd x);
  float_floordiv := fun x k => (fst x / (snd x * k), 1);
  int_of_float := fun x => Z.quot (fst x) (snd x)
|}.

(** [a / b] on ints: a zero divisor raises. *)
Definition py_truediv `{PyFloat} (a b : Z) : result pyfloat :=
  if b =? 0 then Raise ZeroDivisionError else Ok (int_truediv a b).

(** ** The progress bar *)

Definition pbar_char_len : Z := 80 - 5.

Definition begin_progress : M unit :=
  print_end ("[" +:+ str_repeat " " pbar_char_len +:+ "]"
             +:+ str_repeat (chr 8) (pbar_char_len + 1)) "" ;;
  sys_stdout_flush ;;
  set_progress 0.

Definition update_progress `{PyFloat} (x : pyfloat) : M unit :=
  let x := int_of_float (float_floordiv (float_mul x pbar_char_len) 100) in
  p <- get_progress ;;
  print_end (str_repeat "*" (x - p)) "" ;;
  sys_stdout_flush ;;
  set_progress x.

Definition end_progress : M unit :=
  p <- get_progress ;;
  print (str_repeat "*" (pbar_char_len - p) +:+ "]" +:+ newline) ;;
  sys_stdout_flush.

(** ** The size index *)

(** [d[key]] on a [collections.defaultdict(list)]: the list under [key]
    and the dictionary after the access.  A missing key is added with an
    empty list. *)
Definition defaultdict_getitem (d : gmap Z (list string)) (key : Z)
    : list string * gmap Z (list string) :=
  match d !! key with
  | Some v => (v, d)
  | None => ([], <[key := []]> d)
  end.

(** The loop of [dict_of_lists]: [d[key].append(value)] for every pair. *)
Fixpoint dict_of_lists_loop (item_list : list (Z * string))
    (d : gmap Z (list string)) : gmap Z (list string) :=
  match item_list with
  | [] => d
  | (key, value) :: rest =>
      let '(l, d) := defaultdict_getitem d key in
      dict_of_lists_loop rest (<[key := l ++ [value]]> d)
  end.

Definition dict_of_lists (item_list : gen (Z * string))
    : result (gmap Z (list string)) :=
  items ← collect item_list;
  mret (dict_of_lists_loop items ∅).

(** ** Sorting *)

(** [sorted(l, key=key)]: the stable sort, which compares keys with [<]
    only. *)
Fixpoint insert_sorted {A K : Type} (lt : K -> K -> bool) (key : A -> K)
    (x : A) (l : list A) : list A :=
  match l with
  | [] => [x]
  | y :: l' =>
      if lt (key y) (key x) then y :: insert_sorted lt key x l'
      else x :: y :: l'
  end.

Definition sorted {A K : Type} (lt : K -> K -> bool) (key : A -> K)
    (l : list A) : list A :=
  foldr (insert_sorted lt key) [] l.

(** [operator.itemgetter(1)] on a pair. *)
Definition itemgetter_1 {A B : Type} (t : A * B) : B := snd t.

(** ** Comparing files *)

Fixpoint bytes_eqb (a b : list byte) : bool :=
  match a, b with
  | [], [] => true
  | x :: a', y :: b' => Byte.eqb x y && bytes_eqb a' b'
  | _, _ => false
  end.

(** [filecmp._do_cmp]: both files are read to their ends. *)
Definition do_cmp (fs : filesystem) (f1 f2 : string) : result bool :=
  match fs_file fs f1, fs_file fs f2 with
  | Some a, Some b => Ok (bytes_eqb (data a) (data b))
  | _, _ => Raise OSError
  end.

Definition sig_eqb (s1 s2 : Z * Z) : bool :=
  (fst s1 =? fst s2) && (snd s1 =? snd s2).

(** [filecmp.cmp(f1, f2, shallow)] on regular files: equal signatures
    settle a shallow comparison, different sizes settle any comparison,
    and the contents decide otherwise.  The call is recorded in
    [cmp_calls].  The cache that [filecmp] keeps of earlier outcomes is left
    out: its keys hold both paths and both signatures, so on a file system
    that does not change it returns what reading the files returns. *)
Definition filecmp_cmp (fs : filesystem) (f1 f2 : string) (shallow : bool)
    : M bool :=
  (fun w => (Ok tt, mkWorld (stdout w) (progress w) (cmp_calls w ++ [(f1, f2)]))) ;;
  s1 <- lift (os_stat fs f1) ;;
  s2 <- lift (os_stat fs f2) ;;
  if shallow && sig_eqb s1 s2 then ret true
  else if negb (fst s1 =? fst s2) then ret false
  else lift (do_cmp fs f1 f2).

(** [any(filecmp.cmp(file_path_l, file_path_r, False) for file_path_r in
    file_path_list_r)]: the generator expression is consumed up to the
    first true value. *)
Fixpoint file_match (fs : filesystem) (file_path_l : string)
    (file_path_list_r : list string) : M bool :=
  match file_path_list_r with
  | [] => ret false
  | file_path_r :: rest =>
      b <- filecmp_cmp fs file_path_l file_path_r false ;;
      if b then ret true else file_match fs file_path_l rest
  end.

(** ** The comparison *)

(** [for i, x in enumerate(l): body], from index [i], on the loop's
    variables [s]. *)
Fixpoint for_enumerate {A S : Type} (body : Z -> A -> S -> M S) (i : Z)
    (l : list A) (s : S) : M S :=
  match l with
  | [] => ret s
  | x :: l' => s' <- body i x s ;; for_enumerate body (i + 1) l' s'
  end.

(** One turn of the loop of [find_unmatched], on the dictionary and the
    list [unmatched]; [n] is the length of the sorted list. *)
Definition find_unmatched_body `{PyFloat} (fs : filesystem) (n : Z) (i : Z)
    (c : Z * string) (s : gmap Z (list string) * list string)
    : M (gmap Z (list string) * list string) :=
  let '(size_l, file_path_l) := c in
  let '(size_to_file_path_list_dict_r, unmatched) := s in
  let '(file_path_list_r, size_to_file_path_list_dict_r) :=
    defaultdict_getitem size_to_file_path_list_dict_r size_l in
  matched <- file_match fs file_path_l file_path_list_r ;;
  let unmatched :=
    if negb matched then unmatched ++ [file_path_l] else unmatched in
  x <- lift (py_truediv (100 * i) n) ;;
  update_progress x ;;
  ret (size_to_file_path_list_dict_r, unmatched).

Definition find_unmatched `{PyFloat} (fs : filesystem)
    (directory_l directory_r : string) (include_hidden : bool)
    : M (list string) :=
  print "Preprocessing..." ;;
  let size_file_path_tuple_list_l := sizes_paths fs directory_l include_hidden in
  size_file_path_tuple_list_l_sorted <-
    lift (l ← collect size_file_path_tuple_list_l;
          mret (sorted String.ltb itemgetter_1 l)) ;;
  let size_file_path_tuple_list_r := sizes_paths fs directory_r include_hidden in
  size_to_file_path_list_dict_r <-
    lift (dict_of_lists size_file_path_tuple_list_r) ;;
  print "Comparing files..." ;;
  begin_progress ;;
  s <- for_enumerate
         (find_unmatched_body fs
            (Z.of_nat (length size_file_path_tuple_list_l_sorted)))
         0 size_file_path_tuple_list_l_sorted
         (size_to_file_path_list_dict_r, []) ;;
  end_progress ;;
  ret (snd s).

(** ** The command line *)

(** The arguments as [argparse] returns them. *)
Record args : Type := mkArgs {
  all : bool;
  directory_l : string;
  directory_r : string
}.

Fixpoint print_each (lines : list string) : M unit :=
  match lines with
  | [] => ret tt
  | file_path :: rest => print file_path ;; print_each rest
  end.

Definition main `{PyFloat} (fs : filesystem) (a : args) : M unit :=
  let include_hidden := all a in
  let directory_l := directory_l a in
  let directory_r := directory_r a in
  (if negb (os_path_isdir fs directory_l) then
     print ("Invalid directory path: " +:+ directory_l) ;; sys_exit 2
   else ret tt) ;;
  (if negb (os_path_isdir fs directory_r) then
     print ("Invalid directory path: " +:+ directory_r) ;; sys_exit 2
   else ret tt) ;;
  unmatched <- find_unmatched fs directory_l directory_r include_hidden ;;
  match unmatched with
  | [] => print "No unmatched files."
  | _ :: _ => print "Unmatched files:" ;; print_each unmatched
  end.


Definition initial_world : world := mkWorld "" None [].

(** ** Vocabulary of the specification *)

(** A hidden entry: its name begins with ['.']. *)
Definition hidden_name (f : string) : bool :=
  match f with
  | String c _ => Ascii.eqb c "."
  | EmptyString => false
  end.

(** The names the body of the loop of [get_directory_file_paths] keeps. *)
Definition kept (include_hidden : bool) (names : list string) : list string :=
  if include_hidden then names
  else List.filter (fun f => negb (hidden_name f)) names.

(** The separator [os.path.join(a, b)] puts between [a] and a name [b]. *)
Definition sep_of (a : string) : string :=
  if String.eqb a "" || endswith_sep a then "" else "/".

(** The path of the entry reached from [top] through the names [segs], as
    [os.walk] and the loop body build it, one [os.path.join] per name. *)
Definition joinpath (top : string) (segs : list string) : string :=
  fold_left os_path_join segs top.

(** [file_at segs e]: following the names [segs] down from the directory
    [e] ends at an entry that is not a directory. *)
Inductive file_at : list string -> entry -> Prop :=
| file_here name es :
    In (name, FileEntry) es -> file_at [name] (DirEntry es)
| file_below name sub segs es :
    In (name, sub) es -> file_at segs sub -> file_at (name :: segs) (DirEntry es).

Fixpoint has_sep (s : string) : bool :=
  match s with
  | EmptyString => false
  | String c s' => Ascii.eqb c "/" || has_sep s'
  end.

(** A name a directory can hold: not empty and free of ['/']. *)
Definition name_ok (n : string) : bool :=
  negb (String.eqb n "") && negb (has_sep n).

Fixpoint distinct (names : list string) : bool :=
  match names with
  | [] => true
  | n :: names' => negb (existsb (String.eqb n) names') && distinct names'
  end.

(** A well-formed tree: in every directory the names are pairwise distinct
    and each is a name a directory can hold. *)
Fixpoint wf_entry (e : entry) : bool :=
  match e with
  | FileEntry => true
  | DirEntry es =>
      distinct (map fst es)
      && forallb (fun ne => name_ok (fst ne) && wf_entry (snd ne)) es
  end.

(** The last component of a path, [os.path.basename]. *)
Fixpoint os_path_basename (p : string) : string :=
  match p with
  | EmptyString => ""
  | String c p' =>
      if has_sep p' then os_path_basename p'
      else if Ascii.eqb c "/" then p' else p
  end.

(** The report [main] prints for a list of unmatched paths. *)
Definition report (unmatched : list string) : string :=
  match unmatched with
  | [] => "No unmatched files." +:+ newline
  | _ :: _ =>
      "Unmatched files:" +:+ newline
      +:+ String.concat "" (map (fun file_path => file_path +:+ newline) unmatched)
  end.

(** [l] ascends along [key]: every element's key is at most the keys of
    the elements after it. *)
Definition ascending {A : Type} (key : A -> Z) (l : list A) : Prop :=
  StronglySorted (fun x y => key x <= key y) l.

(** ** What the comparison computes *)

(** A candidate together with the size of the regular file at its path. *)
Definition sized (fs : filesystem) (c : Z * string) : Prop :=
  exists f, fs_file fs (snd c) = Some f /\ fst c = Z.of_nat (length (data f)).

(** Both paths name regular files that hold the same bytes. *)
Definition same_content (fs : filesystem) (p q : string) : bool :=
  match fs_file fs p, fs_file fs q with
  | Some a, Some b => bytes_eqb (data a) (data b)
  | _, _ => false
  end.

(** The paths of a bucket that [file_match] compares with [p]: all up to
    the first one with the content of [p]. *)
Fixpoint compared (fs : filesystem) (p : string) (bucket : list string)
    : list string :=
  match bucket with
  | [] => []
  | q :: rest => q :: (if same_content fs p q then [] else compared fs p rest)
  end.

(** The bucket of size [k] in the index built from the entries [cr]. *)
Definition bucket_of (cr : list (Z * string)) (k : Z) : list string :=
  map snd (List.filter (fun c => fst c =? k) cr).

(** The dictionary [d] holds the buckets [b]: a lookup of [k] returns
    [b k]. *)
Definition holds (b : Z -> list string) (d : gmap Z (list string)) : Prop :=
  forall k, default [] (d !! k) = b k.

(** The paths of the candidates [cs] that have no equal in their bucket. *)
Definition unmatched_of (fs : filesystem) (b : Z -> list string)
    (cs : list (Z * string)) : list string :=
  map snd (List.filter
             (fun c => negb (existsb (same_content fs (snd c)) (b (fst c)))) cs).

(** The calls of [filecmp.cmp] made for the candidates [cs]. *)
Definition calls_of (fs : filesystem) (b : Z -> list string)
    (cs : list (Z * string)) : list (string * string) :=
  flat_map (fun c => map (pair (snd c)) (compared fs (snd c) (b (fst c)))) cs.

(** Two runs of [m], started in worlds related by [R], end with the same
    outcome, and in worlds related by [Q] when the outcome is a value. *)
Definition agree {A : Type} (R : world -> world -> Prop) (m : M A)
    (Q : world -> world -> Prop) : Prop :=
  forall w1 w2, R w1 w2 ->
    fst (m w1) = fst (m w2) /\
    (forall a, fst (m w1) = Ok a -> Q (snd (m w1)) (snd (m w2))).

Definition any_worlds : world -> world -> Prop := fun _ _ => True.

Definition same_progress : world -> world -> Prop :=
  fun w1 w2 => progress w1 = progress w2.

(** ** Vocabulary of the further properties *)

(** [m], started in a world that satisfies [P], returns a value and a world
    that satisfy [Q], or raises an exception that satisfies [E]. *)
Definition ends {A : Type} (P : world -> Prop) (m : M A)
    (Q : A -> world -> Prop) (E : exn -> Prop) : Prop :=
  forall w, P w ->
    match m w with
    | (Ok a, w') => Q a w'
    | (Raise e, _) => E e
    end.

(** The exceptions of the enumeration and of the comparison. *)
Definition io_exn (e : exn) : Prop := e = OSError \/ e = IndexError.

(** The number of cells [update_progress(x)] fills the bar to. *)
Definition cells_of `{PyFloat} (x : pyfloat) : Z :=
  int_of_float (float_floordiv (float_mul x pbar_char_len) 100).

(** [update_progress(x)] for each [x] of [xs], in order. *)
Fixpoint update_each `{PyFloat} (xs : list pyfloat) : M unit :=
  match xs with
  | [] => ret tt
  | x :: xs' => update_progress x ;; update_each xs'
  end.

(** The cells the loop of [find_unmatched] fills the bar to in [count]
    turns from index [i], for [n] candidates. *)
Fixpoint cells_from `{PyFloat} (n i : Z) (count : nat) : list Z :=
  match count with
  | O => []
  | S count' => cells_of (int_truediv (100 * i) n) :: cells_from n (i + 1) count'
  end.

(** The files the walk reaches, each as the list of names that leads to it
    from the root, in the order the walk yields them. *)
Fixpoint files_of (include_hidden : bool) (e : entry) : list (list string) :=
  match e with
  | FileEntry => []
  | DirEntry es =>
      map (fun name => [name]) (kept include_hidden (scandir_nondirs es))
      ++ flat_map
           (fun name =>
              with_entry name
                (fun sub => map (cons name) (files_of include_hidden sub)) [] es)
           (kept include_hidden (scandir_dirs es))
  end.

(** The path of [x] is at most the path of [y]. *)
Definition by_path (x y : Z * string) : Prop :=
  String.leb (snd x) (snd y) = true.


(** ** Example file systems *)

Fixpoint assoc {A : Type} (k : string) (l : list (string * A)) : option A :=
  match l with
  | [] => None
  | (k', v) :: l' => if String.eqb k' k then Some v else assoc k l'
  end.

Definition mount (trees : list (string * entry)) (files : list (string * file))
    : filesystem :=
  mkFs (fun p => assoc p trees) (fun p => assoc p files).

Definition text (s : string) : list byte := list_byte_of_string s.

(** The first scenario of the specification: [a/x.txt] and [a/.hidden] in
    the source tree, [b/y.txt] in the target tree. *)
Definition scenario_hidden : filesystem :=
  mount
    [("s", DirEntry [("a", DirEntry [("x.txt", FileEntry); (".hidden", FileEntry)])]);
     ("t", DirEntry [("b", DirEntry [("y.txt", FileEntry)])])]
    [("s/a/x.txt", mkFile 10 (text "hello"));
     ("s/a/.hidden", mkFile 11 (text "secret"));
     ("t/b/y.txt", mkFile 20 (text "hello"))].

(** The second scenario: two 3-byte files in the source tree, one of them
    present in the target tree. *)
Definition scenario_pair : filesystem :=
  mount
    [("s", DirEntry [("p", DirEntry [("one", FileEntry); ("two", FileEntry)])]);
     ("t", DirEntry [("q", DirEntry [("one", FileEntry)])])]
    [("s/p/one", mkFile 1 (text "abc"));
     ("s/p/two", mkFile 2 (text "xyz"));
     ("t/q/one", mkFile 3 (text "abc"))].

(** A source tree in which listing order, path order and size order all
    differ, and an empty target tree. *)
Definition scenario_order : filesystem :=
  mount
    [("s", DirEntry [("b", FileEntry); ("a", FileEntry); ("c", FileEntry)]);
     ("t", DirEntry [])]
    [("s/b", mkFile 1 (text "1"));
     ("s/a", mkFile 2 (text "333"));
     ("s/c", mkFile 3 (text "22"))].


(** A source tree without files and a source root with a hidden name. *)
Definition scenario_empty : filesystem :=
  mount
    [("s", DirEntry [("d", DirEntry [])]);
     ("t", DirEntry [("f", FileEntry)]);
     (".r", DirEntry [("f", FileEntry); ("d", DirEntry [("g", FileEntry)])])]
    [("t/f", mkFile 1 (text "x"));
     (".r/f", mkFile 2 (text "x"));
     (".r/d/g", mkFile 3 (text "y"))].

(** * Properties *)

(** ** The size index *)

(** The bucket a lookup of [key] returns. *)
Lemma defaultdict_getitem_fst (d : gmap Z (list string)) (key : Z) :
  fst (defaultdict_getitem d key) = default [] (d !! key).
Proof. unfold defaultdict_getitem. destruct (d !! key); reflexivity. Qed.

(** A lookup changes no bucket that a later lookup returns. *)
Lemma defaultdict_getitem_snd (d : gmap Z (list string)) (key k : Z) :
  default [] (snd (defaultdict_getitem d key) !! k) = default [] (d !! k).
Proof.
  unfold defaultdict_getitem. destruct (d !! key) eqn:E; simpl; trivial.
  destruct (decide (key = k)) as [->|Hne].
  - rewrite lookup_insert_eq, E. reflexivity.
  - rewrite lookup_insert_ne by assumption. reflexivity.
Qed.

(** C3, as stated, fails: in the index of a target tree holding one file
    of 5 bytes, the lookup of the absent size 6 returns the empty list and
    leaves an index that differs from the one it was given. *)
Lemma lookup_of_absent_size_changes_index :
  let d : gmap Z (list string) := {[ 5 := ["t/b/y.txt"] ]} in
  d !! 6 = None /\
  fst (defaultdict_getitem d 6) = [] /\
  snd (defaultdict_getitem d 6) <> d.
Proof.
  intros d. split; [reflexivity|]. split; [reflexivity|].
  intros Heq. assert (H6 : snd (defaultdict_getitem d 6) !! 6 = d !! 6)
    by (rewrite Heq; reflexivity).
  vm_compute in H6. discriminate.
Qed.

(** C3, amended: the lookup of an absent size returns the empty list and
    no error, and it adds that size to the index as a key of the empty
    list; the bucket of every other size is what it was, and every later
    lookup returns the list it would have returned before. *)
Theorem defaultdict_getitem_absent (d : gmap Z (list string)) (key : Z) :
  d !! key = None ->
  defaultdict_getitem d key = ([], <[key := []]> d) /\
  (forall k, k <> key -> snd (defaultdict_getitem d key) !! k = d !! k) /\
  (forall k, fst (defaultdict_getitem (snd (defaultdict_getitem d key)) k)
             = fst (defaultdict_getitem d k)).
Proof.
  intros Hnone. split; [|split].
  - unfold defaultdict_getitem. rewrite Hnone. reflexivity.
  - intros k Hk. unfold defaultdict_getitem. rewrite Hnone. simpl.
    apply lookup_insert_ne. congruence.
  - intros k. rewrite !defaultdict_getitem_fst.
    apply defaultdict_getitem_snd.
Qed.

Lemma defaultdict_getitem_absent_witness :
  let d : gmap Z (list string) := {[ 5 := ["t/b/y.txt"] ]} in
  defaultdict_getitem d 6 = ([], <[6 := []]> d) /\
  (forall k, k <> 6 -> snd (defaultdict_getitem d 6) !! k = d !! k) /\
  (forall k, fst (defaultdict_getitem (snd (defaultdict_getitem d 6)) k)
             = fst (defaultdict_getitem d k)).
Proof. intros d. apply (defaultdict_getitem_absent d 6). reflexivity. Defined.

(** ** The scenarios of the specification *)

Example scenario_hidden_default :
  fst (find_unmatched scenario_hidden "s" "t" false initial_world) = Ok [].
Proof. reflexivity. Qed.

Example scenario_hidden_all :
  fst (find_unmatched scenario_hidden "s" "t" true initial_world)
  = Ok ["s/a/.hidden"].
Proof. reflexivity. Qed.

Example scenario_pair_unmatched :
  fst (find_unmatched scenario_pair "s" "t" false initial_world) = Ok ["s/p/two"].
Proof. reflexivity. Qed.

Example scenario_pair_stops_at_first_match :
  cmp_calls (snd (find_unmatched scenario_pair "s" "t" false initial_world))
  = [("s/p/one", "t/q/one"); ("s/p/two", "t/q/one")].
Proof. reflexivity. Qed.

Example os_path_join_examples :
  os_path_join "s" "a" = "s/a" /\ os_path_join "s/" "a" = "s/a" /\
  os_path_join "" "a" = "a" /\ os_path_join "s" "/a" = "/a".
Proof. repeat split. Qed.

(** ** The candidate sequence *)

(** C1 at a source tree with the files [b] (1 byte), [a] (3 bytes) and [c]
    (2 bytes), listed in this order, and an empty target tree: the sequence
    the loop iterates is sorted by path, its sizes do not ascend, and the
    unmatched paths come back in path order. *)
Theorem candidates_sorted_by_path :
  collect (sizes_paths scenario_order "s" false)
    = Ok [(1, "s/b"); (3, "s/a"); (2, "s/c")] /\
  sorted String.ltb itemgetter_1 [(1, "s/b"); (3, "s/a"); (2, "s/c")]
    = [(3, "s/a"); (1, "s/b"); (2, "s/c")] /\
  ~ ascending fst (sorted String.ltb (@itemgetter_1 Z string)
                     [(1, "s/b"); (3, "s/a"); (2, "s/c")]) /\
  fst (find_unmatched scenario_order "s" "t" false initial_world)
    = Ok ["s/a"; "s/b"; "s/c"].
Proof.
  split; [reflexivity|]. split; [reflexivity|]. split; [|reflexivity].
  intros Hasc. apply StronglySorted_inv in Hasc as [_ Hall].
  apply Forall_inv in Hall. simpl in Hall. lia.
Qed.

(** ** Strings *)

Lemma append_cons (x : ascii) (a b : string) :
  String x a +:+ b = String x (a +:+ b).
Proof. reflexivity. Qed.

Lemma append_empty_l (a : string) : "" +:+ a = a.
Proof. reflexivity. Qed.

Lemma append_assoc (a b c : string) : (a +:+ b) +:+ c = a +:+ (b +:+ c).
Proof.
  induction a as [|x a IH]; [reflexivity|].
  rewrite !append_cons, IH. reflexivity.
Qed.

Lemma append_empty_r (a : string) : a +:+ "" = a.
Proof.
  induction a as [|x a IH]; [reflexivity|].
  rewrite append_cons, IH. reflexivity.
Qed.

(** ** Running the statements *)

(** A bind that ends well ran both of its parts well. *)
Lemma bind_inv_ok {A B : Type} (m : M A) (k : A -> M B) (w w' : world) (b : B) :
  bind m k w = (Ok b, w') ->
  exists a w1, m w = (Ok a, w1) /\ k a w1 = (Ok b, w').
Proof.
  unfold bind. destruct (m w) as [[a|e] w1]; intros Hrun.
  - exists a, w1. split; [reflexivity|assumption].
  - discriminate.
Qed.

Lemma print_each_run (lines : list string) (w : world) :
  print_each lines w =
  (Ok tt, mkWorld (stdout w +:+ String.concat "" (map (fun p => p +:+ newline) lines))
                  (progress w) (cmp_calls w)).
Proof.
  revert w. induction lines as [|p lines IH]; intros w.
  - simpl. unfold ret. rewrite append_empty_r. destruct w; reflexivity.
  - simpl print_each. unfold bind, print, print_end. rewrite IH. simpl.
    rewrite !append_assoc.
    destruct lines; simpl; rewrite ?append_empty_r, ?append_assoc; reflexivity.
Qed.

(** What [main] prints once [find_unmatched] has returned. *)
Lemma print_report_run (unmatched : list string) (w : world) :
  match unmatched with
  | [] => print "No unmatched files."
  | _ :: _ => print "Unmatched files:" ;; print_each unmatched
  end w
  = (Ok tt, mkWorld (stdout w +:+ report unmatched) (progress w) (cmp_calls w)).
Proof.
  destruct unmatched as [|p rest].
  - reflexivity.
  - unfold bind, print, print_end. rewrite print_each_run. unfold report.
    cbn [stdout progress cmp_calls]. rewrite !append_assoc. reflexivity.
Qed.

(** [end_progress] ends its output with two line ends. *)
Lemma end_progress_inv (w w' : world) :
  end_progress w = (Ok tt, w') ->
  exists pre, stdout w' = pre +:+ newline.
Proof.
  unfold end_progress, bind, get_progress, print, print_end, sys_stdout_flush, ret.
  destruct (progress w) as [p|]; [|discriminate].
  intros [= <-]. cbn [stdout].
  eexists. rewrite <- !append_assoc. reflexivity.
Qed.

Lemma find_unmatched_inv_ok `{PyFloat} fs l r h w us w' :
  find_unmatched fs l r h w = (Ok us, w') ->
  exists pre, stdout w' = pre +:+ newline.
Proof.
  unfold find_unmatched. intros Hrun.
  do 6 (apply bind_inv_ok in Hrun as (? & ? & _ & Hrun)).
  apply bind_inv_ok in Hrun as ([] & w1 & Hend & Hret).
  unfold ret in Hret. injection Hret as _ <-.
  eapply end_progress_inv; eassumption.
Qed.

(** ** Enumeration with sizes *)

Lemma sizes_of_ok (fs : filesystem) (paths : list string) (fin : option exn)
    (cs : list (Z * string)) :
  sizes_of fs paths fin = (cs, None) ->
  Forall (sized fs) cs /\ map snd cs = paths /\ fin = None.
Proof.
  revert cs. induction paths as [|p paths IH]; intros cs; simpl.
  - intros [= <- ->]. auto.
  - unfold os_path_getsize, os_stat.
    destruct (fs_file fs p) as [f|] eqn:Hf; simpl; [|discriminate].
    destruct (sizes_of fs paths fin) as [cs' o] eqn:Hrest.
    unfold gen_app; simpl. intros [= <- ->].
    destruct (IH cs' eq_refl) as (Hall & Hmap & Hfin).
    split; [|split; [simpl; congruence|assumption]].
    constructor; [|assumption]. exists f. auto.
Qed.

Lemma sizes_paths_ok (fs : filesystem) (top : string) (h : bool)
    (cs : list (Z * string)) :
  sizes_paths fs top h = (cs, None) ->
  Forall (sized fs) cs /\
  get_directory_file_paths fs top h = (map snd cs, None).
Proof.
  unfold sizes_paths. intros Hrun.
  apply sizes_of_ok in Hrun as (Hall & Hmap & Hfin).
  split; [assumption|].
  destruct (get_directory_file_paths fs top h) as [ps o]. simpl in *. congruence.
Qed.

(** ** The index that [dict_of_lists] builds *)

Lemma dict_of_lists_loop_bucket (items : list (Z * string))
    (d : gmap Z (list string)) (k : Z) :
  default [] (dict_of_lists_loop items d !! k)
  = default [] (d !! k) ++ bucket_of items k.
Proof.
  revert d. induction items as [|[key value] items IH]; intros d.
  - simpl. rewrite app_nil_r. reflexivity.
  - simpl dict_of_lists_loop.
    destruct (defaultdict_getitem d key) as [l d1] eqn:Hget.
    rewrite IH. unfold bucket_of. simpl.
    assert (Hl : l = default [] (d !! key))
      by (rewrite <- defaultdict_getitem_fst, Hget; reflexivity).
    destruct (Z.eqb_spec key k) as [->|Hne].
    + rewrite lookup_insert_eq. simpl. rewrite Hl, <- app_assoc. reflexivity.
    + rewrite lookup_insert_ne by assumption.
      assert (Hd1 : d1 = snd (defaultdict_getitem d key)) by (rewrite Hget; reflexivity).
      rewrite Hd1, defaultdict_getitem_snd. reflexivity.
Qed.

Lemma dict_of_lists_bucket (cr : list (Z * string)) (k : Z) :
  default [] (dict_of_lists_loop cr ∅ !! k) = bucket_of cr k.
Proof. rewrite dict_of_lists_loop_bucket, lookup_empty. reflexivity. Qed.

Lemma bucket_of_In (cr : list (Z * string)) (k : Z) (q : string) :
  In q (bucket_of cr k) <-> In (k, q) cr.
Proof.
  unfold bucket_of. rewrite in_map_iff. split.
  - intros ([k' q'] & Hq & Hin). apply filter_In in Hin as [Hin Hk].
    simpl in *. apply Z.eqb_eq in Hk. congruence.
  - intros Hin. exists (k, q). split; [reflexivity|].
    apply filter_In. split; [assumption|]. simpl. apply Z.eqb_refl.
Qed.

(** ** Sorting *)

Lemma insert_sorted_perm {A K : Type} (lt : K -> K -> bool) (key : A -> K)
    (x : A) (l : list A) :
  Permutation (insert_sorted lt key x l) (x :: l).
Proof.
  induction l as [|y l IH]; simpl; [reflexivity|].
  destruct (lt (key y) (key x)); [|reflexivity].
  rewrite IH. apply perm_swap.
Qed.

Lemma sorted_perm {A K : Type} (lt : K -> K -> bool) (key : A -> K) (l : list A) :
  Permutation (sorted lt key l) l.
Proof.
  induction l as [|x l IH]; simpl; [reflexivity|].
  rewrite insert_sorted_perm. constructor. exact IH.
Qed.

(** ** Comparing contents *)

Lemma bytes_eqb_eq (a b : list byte) : bytes_eqb a b = true <-> a = b.
Proof.
  revert b. induction a as [|x a IH]; intros [|y b]; simpl; split;
    try discriminate; try reflexivity.
  - intros [Hxy Hab]%andb_true_iff.
    apply Byte.byte_dec_bl in Hxy. apply IH in Hab. congruence.
  - intros [= -> ->]. apply andb_true_iff. split.
    + apply Byte.byte_dec_lb. reflexivity.
    + apply IH. reflexivity.
Qed.

Lemma filecmp_cmp_run (fs : filesystem) (p q : string) (w : world) :
  is_Some (fs_file fs p) -> is_Some (fs_file fs q) ->
  filecmp_cmp fs p q false w
  = (Ok (same_content fs p q),
     mkWorld (stdout w) (progress w) (cmp_calls w ++ [(p, q)])).
Proof.
  intros [a Ha] [b Hb].
  unfold filecmp_cmp, bind, lift, os_stat, do_cmp, same_content, ret.
  rewrite Ha, Hb. cbn [andb fst].
  destruct (Z.eqb_spec (Z.of_nat (length (data a))) (Z.of_nat (length (data b))))
    as [Heq|Hne]; simpl; [reflexivity|].
  destruct (bytes_eqb (data a) (data b)) eqn:Hd; [|reflexivity].
  apply bytes_eqb_eq in Hd. rewrite Hd in Hne. contradiction.
Qed.

Lemma file_match_run (fs : filesystem) (p : string) (bucket : list string)
    (w : world) :
  is_Some (fs_file fs p) ->
  Forall (fun q => is_Some (fs_file fs q)) bucket ->
  file_match fs p bucket w
  = (Ok (existsb (same_content fs p) bucket),
     mkWorld (stdout w) (progress w)
             (cmp_calls w ++ map (pair p) (compared fs p bucket))).
Proof.
  intros Hp Hall. revert w.
  induction Hall as [|q bucket Hq Hall IH]; intros w.
  - simpl. unfold ret. rewrite app_nil_r. destruct w; reflexivity.
  - simpl file_match. unfold bind. rewrite filecmp_cmp_run by assumption.
    simpl. destruct (same_content fs p q) eqn:Hsame.
    + reflexivity.
    + rewrite IH. simpl. rewrite <- app_assoc. reflexivity.
Qed.

(** ** The loop of [find_unmatched] *)

Lemma update_progress_run `{PyFloat} (x : pyfloat) (w : world) :
  is_Some (progress w) ->
  exists w', update_progress x w = (Ok tt, w') /\
             is_Some (progress w') /\ cmp_calls w' = cmp_calls w.
Proof.
  intros [p Hp]. unfold update_progress, bind, get_progress. rewrite Hp.
  eexists. split; [reflexivity|]. split; [eexists|]; reflexivity.
Qed.

Section Loop.
Context `{PyFloat} (fs : filesystem) (n : Z) (b : Z -> list string).

Hypothesis bucket_files :
  forall k q, In q (b k) -> is_Some (fs_file fs q).

Lemma find_unmatched_body_run i c d um w :
  n <> 0 -> is_Some (progress w) -> sized fs c -> holds b d ->
  exists d' w',
    find_unmatched_body fs n i c (d, um) w
    = (Ok (d', um ++ unmatched_of fs b [c]), w') /\
    holds b d' /\ is_Some (progress w') /\
    cmp_calls w' = cmp_calls w ++ calls_of fs b [c].
Proof.
  intros Hn Hprog (f & Hf & Hsize) Hd. destruct c as [size_l file_path_l].
  simpl in Hf, Hsize. unfold find_unmatched_body.
  destruct (defaultdict_getitem d size_l) as [bucket d1] eqn:Hget.
  assert (Hbucket : bucket = b size_l).
  { rewrite <- Hd, <- defaultdict_getitem_fst, Hget. reflexivity. }
  assert (Hd1 : holds b d1).
  { intros k. rewrite <- Hd.
    replace d1 with (snd (defaultdict_getitem d size_l)) by (rewrite Hget; reflexivity).
    apply defaultdict_getitem_snd. }
  subst bucket.
  assert (Hfiles : Forall (fun q => is_Some (fs_file fs q)) (b size_l)).
  { apply List.Forall_forall. intros q Hq. eapply bucket_files, Hq. }
  unfold bind at 1. rewrite file_match_run by (eauto; rewrite Hf; eauto).
  unfold bind at 1. unfold lift, py_truediv.
  destruct (Z.eqb_spec n 0) as [|_]; [contradiction|].
  set (w1 := mkWorld _ _ _).
  destruct (update_progress_run (int_truediv (100 * i) n) w1 Hprog)
    as (w' & Hup & Hprog' & Hcalls).
  unfold bind. rewrite Hup. unfold ret.
  exists d1, w'. split; [|split; [assumption|split; [assumption|]]].
  - unfold unmatched_of. simpl.
    destruct (existsb (same_content fs file_path_l) (b size_l)); simpl;
      rewrite ?app_nil_r; reflexivity.
  - rewrite Hcalls. unfold calls_of. simpl. rewrite app_nil_r. reflexivity.
Qed.

Lemma for_enumerate_run cs : forall i d um w,
  (cs <> [] -> n <> 0) -> is_Some (progress w) ->
  Forall (sized fs) cs -> holds b d ->
  exists d' w',
    for_enumerate (find_unmatched_body fs n) i cs (d, um) w
    = (Ok (d', um ++ unmatched_of fs b cs), w') /\
    holds b d' /\ is_Some (progress w') /\
    cmp_calls w' = cmp_calls w ++ calls_of fs b cs.
Proof.
  induction cs as [|c cs IH]; intros i d um w Hn Hprog Hall Hd.
  - exists d, w. simpl. unfold ret, unmatched_of, calls_of. simpl.
    rewrite !app_nil_r. auto.
  - apply Forall_cons_iff in Hall as [Hc Hall].
    assert (Hn0 : n <> 0) by (apply Hn; discriminate).
    destruct (find_unmatched_body_run i c d um w Hn0 Hprog Hc Hd)
      as (d1 & w1 & Hbody & Hd1 & Hprog1 & Hcalls1).
    destruct (IH (i + 1) d1 (um ++ unmatched_of fs b [c]) w1
                (fun _ => Hn0) Hprog1 Hall Hd1)
      as (d' & w' & Hloop & Hd' & Hprog' & Hcalls').
    exists d', w'. simpl for_enumerate. unfold bind. rewrite Hbody, Hloop.
    split; [|split; [assumption|split; [assumption|]]].
    + unfold unmatched_of. simpl.
      destruct (existsb (same_content fs c.2) (b c.1)); simpl;
        rewrite <- ?app_assoc, ?app_nil_r; reflexivity.
    + rewrite Hcalls', Hcalls1. unfold calls_of. simpl.
      rewrite app_nil_r, <- app_assoc. reflexivity.
Qed.
End Loop.

(** The whole of [find_unmatched], when both trees are enumerated to
    their ends: the unmatched paths and the calls of [filecmp.cmp]. *)
Lemma find_unmatched_run `{PyFloat} fs l r h cl cr w :
  sizes_paths fs l h = (cl, None) ->
  sizes_paths fs r h = (cr, None) ->
  exists w',
    find_unmatched fs l r h w
    = (Ok (unmatched_of fs (bucket_of cr) (sorted String.ltb itemgetter_1 cl)), w') /\
    cmp_calls w'
    = cmp_calls w ++ calls_of fs (bucket_of cr) (sorted String.ltb itemgetter_1 cl).
Proof.
  intros Hl Hr. unfold find_unmatched.
  destruct (sizes_paths_ok _ _ _ _ Hl) as [Hsl _].
  destruct (sizes_paths_ok _ _ _ _ Hr) as [Hsr _].
  rewrite Hl, Hr. unfold dict_of_lists, collect. simpl.
  set (cs := sorted String.ltb itemgetter_1 cl).
  unfold bind at 1. unfold print at 1, print_end at 1.
  unfold bind at 1. unfold lift at 1.
  unfold bind at 1. unfold lift at 1. unfold mret, result_ret.
  unfold bind at 1. unfold print at 1, print_end at 1.
  unfold bind at 1. unfold begin_progress, bind, print_end, sys_stdout_flush, ret,
    set_progress. cbn [stdout progress cmp_calls].
  set (w1 := mkWorld _ _ _).
  assert (Hcs : Forall (sized fs) cs).
  { eapply Permutation_Forall; [|exact Hsl]. symmetry. apply sorted_perm. }
  assert (Hfiles : forall k q, In q (bucket_of cr k) -> is_Some (fs_file fs q)).
  { intros k q Hq%bucket_of_In.
    destruct (proj1 (List.Forall_forall _ _) Hsr _ Hq) as (f & Hf & _).
    simpl in Hf. rewrite Hf. eexists. reflexivity. }
  destruct (for_enumerate_run fs (Z.of_nat (length cs)) (bucket_of cr) Hfiles
              cs 0 (dict_of_lists_loop cr ∅) [] w1)
    as (d' & w' & Hloop & _ & [p Hp] & Hcalls).
  - destruct cs; [congruence|simpl; lia].
  - eexists. reflexivity.
  - exact Hcs.
  - intros k. apply dict_of_lists_bucket.
  - rewrite Hloop. unfold end_progress, bind, get_progress. rewrite Hp.
    eexists. split; [reflexivity|]. simpl. exact Hcalls.
Qed.

(** ** The classification of a source file *)









(** ** Sizes absent from the index *)





(** ** The report and the exit status *)

(** C6: when [main] runs to its end, [find_unmatched] has returned a list,
    its output ends a line, and what [main] prints after it is the line
    [No unmatched files.] for the empty list and otherwise the line
    [Unmatched files:] followed, in the order of the list, by each path on
    a line of its own. *)
Theorem main_prints_report `{PyFloat} (fs : filesystem) (a : args) (w w' : world) :
  main fs a w = (Ok tt, w') ->
  exists unmatched w1 pre,
    find_unmatched fs (directory_l a) (directory_r a) (all a) w = (Ok unmatched, w1) /\
    stdout w1 = pre +:+ newline /\
    stdout w' =
      stdout w1 +:+
      match unmatched with
      | [] => "No unmatched files." +:+ newline
      | _ :: _ =>
          "Unmatched files:" +:+ newline
          +:+ String.concat "" (map (fun file_path => file_path +:+ newline) unmatched)
      end.
Proof.
  unfold main. intros Hrun.
  apply bind_inv_ok in Hrun as ([] & w0 & Hl & Hrun).
  apply bind_inv_ok in Hrun as ([] & w0' & Hr & Hrun).
  apply bind_inv_ok in Hrun as (unmatched & w1 & Hfind & Hrun).
  destruct (os_path_isdir fs (directory_l a)); simpl in Hl;
    [|apply bind_inv_ok in Hl as (? & ? & _ & Hl); discriminate].
  destruct (os_path_isdir fs (directory_r a)); simpl in Hr;
    [|apply bind_inv_ok in Hr as (? & ? & _ & Hr); discriminate].
  unfold ret in Hl, Hr. injection Hl as <-. injection Hr as <-.
  destruct (find_unmatched_inv_ok _ _ _ _ _ _ _ Hfind) as [pre Hpre].
  exists unmatched, w1, pre. split; [assumption|]. split; [assumption|].
  rewrite print_report_run in Hrun. injection Hrun as <-. reflexivity.
Qed.

Lemma main_prints_report_witness :
  exists unmatched w1 pre,
    find_unmatched scenario_pair "s" "t" false initial_world = (Ok unmatched, w1) /\
    stdout w1 = pre +:+ newline /\
    stdout (snd (main scenario_pair (mkArgs false "s" "t") initial_world)) =
      stdout w1 +:+
      match unmatched with
      | [] => "No unmatched files." +:+ newline
      | _ :: _ =>
          "Unmatched files:" +:+ newline
          +:+ String.concat "" (map (fun file_path => file_path +:+ newline) unmatched)
      end.
Proof.
  apply (main_prints_report scenario_pair (mkArgs false "s" "t") initial_world).
  vm_compute. reflexivity.
Defined.

Lemma main_run_valid `{PyFloat} (fs : filesystem) (a : args) (w w1 : world)
    (unmatched : list string) :
  os_path_isdir fs (directory_l a) = true ->
  os_path_isdir fs (directory_r a) = true ->
  find_unmatched fs (directory_l a) (directory_r a) (all a) w = (Ok unmatched, w1) ->
  main fs a w
  = (Ok tt, mkWorld (stdout w1 +:+ report unmatched) (progress w1) (cmp_calls w1)).
Proof.
  intros Hl Hr Hfind. unfold main. rewrite Hl, Hr. simpl negb. cbv iota.
  unfold bind at 1. unfold ret at 1. unfold bind at 1. unfold ret at 1.
  unfold bind at 1. rewrite Hfind. apply print_report_run.
Qed.



(** ** An empty source tree *)

(** C10: when the enumeration of the source tree yields no file and the
    target tree is enumerated to its end, [find_unmatched] returns the empty
    list, no exception is raised (the division by the length of the
    candidate list is never evaluated), and [main] ends by printing
    [No unmatched files.]. *)
Theorem empty_source_no_unmatched `{PyFloat} (fs : filesystem) (a : args)
    (cr : list (Z * string)) (w : world) :
  os_path_isdir fs (directory_l a) = true ->
  os_path_isdir fs (directory_r a) = true ->
  sizes_paths fs (directory_l a) (all a) = ([], None) ->
  sizes_paths fs (directory_r a) (all a) = (cr, None) ->
  exists w1 w',
    find_unmatched fs (directory_l a) (directory_r a) (all a) w = (Ok [], w1) /\
    main fs a w = (Ok tt, w') /\
    stdout w' = stdout w1 +:+ "No unmatched files." +:+ newline.
Proof.
  intros Hl Hr Hcl Hcr.
  destruct (find_unmatched_run fs _ _ _ [] cr w Hcl Hcr) as (w1 & Hfind & _).
  simpl in Hfind. change (unmatched_of fs (bucket_of cr) []) with (@nil string) in Hfind.
  exists w1. eexists. split; [exact Hfind|].
  rewrite (main_run_valid fs a w w1 _ Hl Hr Hfind). split; reflexivity.
Qed.

Lemma empty_source_no_unmatched_witness :
  exists w1 w',
    find_unmatched scenario_empty "s" "t" false initial_world = (Ok [], w1) /\
    main scenario_empty (mkArgs false "s" "t") initial_world = (Ok tt, w') /\
    stdout w' = stdout w1 +:+ "No unmatched files." +:+ newline.
Proof.
  apply (empty_source_no_unmatched scenario_empty (mkArgs false "s" "t")
           [(1, "t/f")] initial_world); reflexivity.
Defined.

(** ** Two runs *)

Lemma agree_bind {A B : Type} (R Q S : world -> world -> Prop)
    (m : M A) (k : A -> M B) :
  agree R m Q -> (forall a, agree Q (k a) S) -> agree R (bind m k) S.
Proof.
  intros Hm Hk w1 w2 HR. destruct (Hm w1 w2 HR) as [Hres Hpost].
  unfold bind. destruct (m w1) as [[a|e] w1'], (m w2) as [[a'|e'] w2'];
    simpl in Hres; try discriminate.
  - injection Hres as <-. apply Hk, (Hpost a). reflexivity.
  - injection Hres as <-. simpl. split; [reflexivity|discriminate].
Qed.

Lemma agree_ret {A : Type} (R : world -> world -> Prop) (a : A) :
  agree R (ret a) R.
Proof. intros w1 w2 HR. simpl. auto. Qed.

Lemma agree_lift {A : Type} (R : world -> world -> Prop) (r : result A) :
  agree R (lift r) R.
Proof. intros w1 w2 HR. simpl. auto. Qed.

Lemma agree_print_end_any (s e : string) : agree any_worlds (print_end s e) any_worlds.
Proof. intros w1 w2 _. simpl. unfold any_worlds. auto. Qed.

Lemma agree_print_end (s e : string) : agree same_progress (print_end s e) same_progress.
Proof. intros w1 w2 HR. simpl. auto. Qed.

Lemma agree_begin_progress : agree any_worlds begin_progress same_progress.
Proof. intros w1 w2 _. split; [reflexivity|]. intros _ _. reflexivity. Qed.

Lemma agree_get_progress : agree same_progress get_progress same_progress.
Proof.
  intros w1 w2 HR. unfold get_progress. pose proof HR as Hp.
  unfold same_progress in Hp. rewrite Hp.
  destruct (progress w2); simpl; split; trivial; intros _ _; exact HR.
Qed.

Lemma agree_set_progress (p : Z) : agree same_progress (set_progress p) same_progress.
Proof. intros w1 w2 HR. split; [reflexivity|]. intros _ _. reflexivity. Qed.

(** One step through a bind: [lem] settles the first part. *)
Tactic Notation "agree_step" uconstr(lem) :=
  eapply agree_bind; [eapply lem|]; intros ?.

Lemma agree_update_progress `{PyFloat} (x : pyfloat) :
  agree same_progress (update_progress x) same_progress.
Proof.
  unfold update_progress.
  agree_step agree_get_progress. agree_step agree_print_end.
  agree_step agree_ret. apply agree_set_progress.
Qed.

Lemma agree_end_progress : agree same_progress end_progress same_progress.
Proof.
  unfold end_progress.
  agree_step agree_get_progress. agree_step agree_print_end. apply agree_ret.
Qed.

Lemma agree_filecmp_cmp (fs : filesystem) (f1 f2 : string) (shallow : bool) :
  agree same_progress (filecmp_cmp fs f1 f2 shallow) same_progress.
Proof.
  unfold filecmp_cmp.
  eapply agree_bind with (Q := same_progress).
  { intros w1 w2 HR. split; [reflexivity|]. intros _ _. exact HR. }
  intros _. agree_step agree_lift. agree_step agree_lift.
  match goal with
  | |- context [sig_eqb ?s1 ?s2] =>
      destruct (shallow && sig_eqb s1 s2); [apply agree_ret|];
      destruct (negb (fst s1 =? fst s2)); [apply agree_ret|apply agree_lift]
  end.
Qed.

Lemma agree_file_match (fs : filesystem) (p : string) (bucket : list string) :
  agree same_progress (file_match fs p bucket) same_progress.
Proof.
  induction bucket as [|q bucket IH]; simpl; [apply agree_ret|].
  eapply agree_bind; [apply agree_filecmp_cmp|]. intros [|]; [apply agree_ret|exact IH].
Qed.

Lemma agree_find_unmatched_body `{PyFloat} fs n i c s :
  agree same_progress (find_unmatched_body fs n i c s) same_progress.
Proof.
  unfold find_unmatched_body. destruct c as [size_l file_path_l], s as [d um].
  destruct (defaultdict_getitem d size_l) as [bucket d1].
  agree_step agree_file_match. agree_step agree_lift.
  agree_step agree_update_progress. apply agree_ret.
Qed.

Lemma agree_for_enumerate `{PyFloat} fs n cs : forall i s,
  agree same_progress (for_enumerate (find_unmatched_body fs n) i cs s) same_progress.
Proof.
  induction cs as [|c cs IH]; intros i s; simpl; [apply agree_ret|].
  agree_step agree_find_unmatched_body. apply IH.
Qed.

Lemma agree_find_unmatched `{PyFloat} fs l r h :
  agree any_worlds (find_unmatched fs l r h) same_progress.
Proof.
  unfold find_unmatched.
  agree_step agree_print_end_any. agree_step agree_lift. agree_step agree_lift.
  agree_step agree_print_end_any. agree_step agree_begin_progress.
  agree_step agree_for_enumerate. agree_step agree_end_progress.
  apply agree_ret.
Qed.

(** C8: for one file system, one pair of directories and one flag, the
    outcome of [find_unmatched] (the unmatched list with its order, or the
    exception) is the same from whatever state of the output and of the
    global [progress] it is started; in particular a second run, started
    in the state the first run leaves, returns what the first returned. *)
Theorem find_unmatched_deterministic `{PyFloat} (fs : filesystem) (l r : string)
    (h : bool) :
  (forall w1 w2,
     fst (find_unmatched fs l r h w1) = fst (find_unmatched fs l r h w2)) /\
  (forall w,
     fst (find_unmatched fs l r h (snd (find_unmatched fs l r h w)))
     = fst (find_unmatched fs l r h w)).
Proof.
  assert (Hany : forall w1 w2,
            fst (find_unmatched fs l r h w1) = fst (find_unmatched fs l r h w2)).
  { intros w1 w2. apply (agree_find_unmatched fs l r h w1 w2). exact I. }
  split; [exact Hany|]. intros w. apply Hany.
Qed.

(** ** Walking a tree *)

Lemma entry_induction (P : entry -> Prop) :
  P FileEntry ->
  (forall es, Forall (fun ne => P (snd ne)) es -> P (DirEntry es)) ->
  forall e, P e.
Proof.
  intros HF HD. fix IH 1. intros [|es]; [exact HF|]. apply HD.
  induction es as [|[n sub] es IHes]; constructor; [apply IH|exact IHes].
Qed.

Lemma gen_app_fst {A : Type} (out : list A) (g : gen A) :
  gen_app (out, None) g = (out ++ fst g, snd g).
Proof. reflexivity. Qed.

Lemma gen_flat_map_In_inv {A B : Type} (f : A -> gen B) (l : list A) (x : B) :
  In x (fst (gen_flat_map f l)) -> exists a, In a l /\ In x (fst (f a)).
Proof.
  induction l as [|a l IH]; simpl; [contradiction|].
  unfold gen_app. destruct (snd (f a)).
  - intros Hx. exists a. auto.
  - simpl. intros [Hx|Hx]%in_app_or.
    + exists a. auto.
    + destruct (IH Hx) as (a' & Ha' & Hx'). exists a'. auto.
Qed.

Lemma gen_flat_map_ends {A B : Type} (f : A -> gen B) (l : list A) :
  (forall a, In a l -> snd (f a) = None) -> snd (gen_flat_map f l) = None.
Proof.
  induction l as [|a l IH]; intros Hall; simpl; [reflexivity|].
  unfold gen_app. rewrite (Hall a) by (left; reflexivity). simpl.
  apply IH. intros a' Ha'. apply Hall. right. exact Ha'.
Qed.

Lemma gen_flat_map_In {A B : Type} (f : A -> gen B) (l : list A) (a : A) (x : B) :
  (forall a, In a l -> snd (f a) = None) ->
  In a l -> In x (fst (f a)) -> In x (fst (gen_flat_map f l)).
Proof.
  induction l as [|a' l IH]; intros Hall Ha Hx; simpl; [contradiction|].
  unfold gen_app. rewrite (Hall a') by (left; reflexivity). simpl.
  apply in_or_app. destruct Ha as [->|Ha]; [left; exact Hx|right].
  apply IH; [|assumption..]. intros a'' Ha''. apply Hall. right. exact Ha''.
Qed.

Lemma scandir_dirs_In (es : list (string * entry)) (name : string) :
  In name (scandir_dirs es) <-> exists sub, In (name, DirEntry sub) es.
Proof.
  unfold scandir_dirs. rewrite in_map_iff. split.
  - intros ([n [|sub]] & Hn & Hin); apply filter_In in Hin as [Hin Hdir];
      simpl in *; [discriminate|]. subst n. exists sub. exact Hin.
  - intros (sub & Hin). exists (name, DirEntry sub). split; [reflexivity|].
    apply filter_In. auto.
Qed.

Lemma scandir_nondirs_In (es : list (string * entry)) (name : string) :
  In name (scandir_nondirs es) <-> In (name, FileEntry) es.
Proof.
  unfold scandir_nondirs. rewrite in_map_iff. split.
  - intros ([n [|sub]] & Hn & Hin); apply filter_In in Hin as [Hin Hdir];
      simpl in *; [|discriminate]. subst n. exact Hin.
  - intros Hin. exists (name, FileEntry). split; [reflexivity|].
    apply filter_In. auto.
Qed.

(** The filter keeps the names that are not hidden, in order, when no
    name is empty. *)
Lemma not_hidden_inv (names l : list string) :
  not_hidden names = Ok l ->
  l = List.filter (fun f => negb (hidden_name f)) names.
Proof.
  revert l. induction names as [|f names IH]; simpl; intros l.
  - intros [= <-]. reflexivity.
  - destruct f as [|c f]; simpl; [discriminate|].
    destruct (not_hidden names) as [rest|x]; simpl; [|discriminate].
    intros [= <-]. rewrite (IH rest eq_refl).
    destruct (Ascii.eqb c "."); reflexivity.
Qed.

Lemma not_hidden_ok (names : list string) :
  Forall (fun f => f <> "") names ->
  not_hidden names = Ok (List.filter (fun f => negb (hidden_name f)) names).
Proof.
  induction 1 as [|f names Hf Hall IH]; simpl; [reflexivity|].
  destruct f as [|c f]; [contradiction|]. simpl. rewrite IH. simpl.
  destruct (Ascii.eqb c "."); reflexivity.
Qed.

Lemma kept_In (h : bool) (names : list string) (f : string) :
  In f (kept h names) <-> In f names /\ (h = false -> hidden_name f = false).
Proof.
  unfold kept. destruct h.
  - split; [intros Hin; split; [assumption|discriminate]|tauto].
  - rewrite filter_In, negb_true_iff. tauto.
Qed.

Lemma body_inv (h : bool) (top : string) (dirs files dl out : list string) :
  get_directory_file_paths_body h top dirs files = Ok (dl, out) ->
  dl = kept h dirs /\ out = map (os_path_join top) (kept h files).
Proof.
  unfold get_directory_file_paths_body, kept. destruct h; simpl.
  - intros [= <- <-]. auto.
  - destruct (not_hidden files) as [fl|x] eqn:Hfl; simpl; [|discriminate].
    destruct (not_hidden dirs) as [dl'|x] eqn:Hdl; simpl; [|discriminate].
    intros [= <- <-]. apply not_hidden_inv in Hfl, Hdl. subst. auto.
Qed.

Lemma body_ok (h : bool) (top : string) (dirs files : list string) :
  (h = false -> Forall (fun f => f <> "") (files ++ dirs)) ->
  get_directory_file_paths_body h top dirs files
  = Ok (kept h dirs, map (os_path_join top) (kept h files)).
Proof.
  unfold get_directory_file_paths_body, kept. destruct h; simpl; [reflexivity|].
  intros Hall. specialize (Hall eq_refl). apply Forall_app in Hall as [Hf Hd].
  rewrite (not_hidden_ok files Hf), (not_hidden_ok dirs Hd). reflexivity.
Qed.

Lemma walk_dir (h : bool) (top : string) (es : list (string * entry)) :
  os_walk (get_directory_file_paths_body h) top (DirEntry es)
  = match get_directory_file_paths_body h top (scandir_dirs es) (scandir_nondirs es) with
    | Raise x => ([], Some x)
    | Ok (dirs, out) =>
        gen_app (out, None)
          (gen_flat_map
             (fun name =>
                with_entry name
                  (fun sub => os_walk (get_directory_file_paths_body h)
                                (os_path_join top name) sub)
                  ([], None) es)
             dirs)
    end.
Proof. reflexivity. Qed.

Lemma with_entry_cases {B : Type} (name : string) (found : entry -> B)
    (missing : B) (es : list (string * entry)) :
  with_entry name found missing es = missing \/
  exists sub, In (name, sub) es /\ with_entry name found missing es = found sub.
Proof.
  induction es as [|[n sub] es IH]; simpl; [left; reflexivity|].
  destruct (String.eqb_spec n name) as [->|Hne].
  - right. exists sub. auto.
  - destruct IH as [IH|(sub' & Hin & IH)]; [left; exact IH|right].
    exists sub'. auto.
Qed.

Lemma joinpath_cons (top name : string) (segs : list string) :
  joinpath top (name :: segs) = joinpath (os_path_join top name) segs.
Proof. reflexivity. Qed.

(** Every path the walk yields is the path of a file of the tree, and
    without [include_hidden] none of its names is hidden. *)
Lemma walk_sound (h : bool) (e : entry) : forall top p,
  In p (fst (os_walk (get_directory_file_paths_body h) top e)) ->
  exists segs,
    file_at segs e /\ p = joinpath top segs /\
    (h = false -> Forall (fun s => hidden_name s = false) segs).
Proof.
  induction e as [|es IH] using entry_induction; intros top p; [contradiction|].
  rewrite walk_dir.
  destruct (get_directory_file_paths_body h top (scandir_dirs es) (scandir_nondirs es))
    as [[dl out]|x] eqn:Hbody; [|contradiction].
  apply body_inv in Hbody as [-> ->]. rewrite gen_app_fst. simpl.
  intros [Hp|Hp]%in_app_or.
  - apply in_map_iff in Hp as (name & <- & [Hname Hvis]%kept_In).
    apply scandir_nondirs_In in Hname. exists [name].
    split; [constructor; assumption|]. split; [reflexivity|].
    intros Hh. constructor; auto.
  - apply gen_flat_map_In_inv in Hp as (name & [Hname Hvis]%kept_In & Hp).
    destruct (with_entry_cases name
                (fun sub => os_walk (get_directory_file_paths_body h)
                              (os_path_join top name) sub)
                ([], None) es) as [Hmiss|(sub & Hin & Hfound)].
    + rewrite Hmiss in Hp. contradiction.
    + rewrite Hfound in Hp.
      pose proof (proj1 (List.Forall_forall _ _) IH _ Hin) as IHsub. simpl in IHsub.
      destruct (IHsub _ _ Hp) as (segs & Hat & -> & Hsegs).
      exists (name :: segs). split; [econstructor; eassumption|].
      split; [reflexivity|]. intros Hh. constructor; auto.
Qed.

Lemma wf_entry_dir (es : list (string * entry)) :
  wf_entry (DirEntry es) = true ->
  distinct (map fst es) = true /\
  forall n sub, In (n, sub) es -> name_ok n = true /\ wf_entry sub = true.
Proof.
  simpl. intros [Hd Hall]%andb_true_iff. split; [assumption|].
  intros n sub Hin. rewrite forallb_forall in Hall.
  apply andb_true_iff. apply (Hall _ Hin).
Qed.

Lemma name_ok_nonempty (n : string) : name_ok n = true -> n <> "".
Proof.
  unfold name_ok. intros [Hn _]%andb_true_iff ->. discriminate.
Qed.

Lemma with_entry_found {B : Type} (name : string) (found : entry -> B)
    (missing : B) (es : list (string * entry)) (sub : entry) :
  distinct (map fst es) = true -> In (name, sub) es ->
  with_entry name found missing es = found sub.
Proof.
  induction es as [|[n s] es IH]; simpl; [contradiction|].
  intros [Hfresh Hd]%andb_true_iff [Heq|Hin].
  - injection Heq as -> ->. rewrite String.eqb_refl. reflexivity.
  - destruct (String.eqb_spec n name) as [->|Hne]; [|auto].
    apply negb_true_iff in Hfresh.
    assert (Hex : existsb (String.eqb name) (map fst es) = true).
    { apply existsb_exists. exists name. split; [|apply String.eqb_refl].
      apply in_map_iff. exists (name, sub). auto. }
    congruence.
Qed.

Lemma wf_names_nonempty (es : list (string * entry)) :
  wf_entry (DirEntry es) = true ->
  Forall (fun f => f <> "") (scandir_nondirs es ++ scandir_dirs es).
Proof.
  intros [_ Hall]%wf_entry_dir. apply List.Forall_forall. intros f Hf.
  apply in_app_or in Hf as [Hf%scandir_nondirs_In|(sub & Hf)%scandir_dirs_In];
    apply Hall in Hf as [Hf _]; apply name_ok_nonempty, Hf.
Qed.

(** The walk of a well-formed tree ends without an exception. *)
Lemma walk_ends (h : bool) (e : entry) :
  wf_entry e = true ->
  forall top, snd (os_walk (get_directory_file_paths_body h) top e) = None.
Proof.
  induction e as [|es IH] using entry_induction; intros Hwf top; [reflexivity|].
  rewrite walk_dir, body_ok by (intros _; apply wf_names_nonempty, Hwf).
  rewrite gen_app_fst. simpl. apply gen_flat_map_ends. intros name _.
  destruct (with_entry_cases name
              (fun sub => os_walk (get_directory_file_paths_body h)
                            (os_path_join top name) sub)
              ([], None) es) as [->|(sub & Hin & ->)]; [reflexivity|].
  pose proof (proj1 (List.Forall_forall _ _) IH _ Hin) as IHsub.
  apply IHsub. apply wf_entry_dir in Hwf as [_ Hall]. apply (Hall _ _ Hin).
Qed.

(** Every file of a well-formed tree is yielded: with [include_hidden]
    always, and without it when none of its names is hidden. *)
Lemma walk_complete (h : bool) (segs : list string) (e : entry) :
  file_at segs e -> wf_entry e = true ->
  (h = false -> Forall (fun s => hidden_name s = false) segs) ->
  forall top,
    In (joinpath top segs) (fst (os_walk (get_directory_file_paths_body h) top e)).
Proof.
  induction 1 as [name es Hin|name sub segs es Hin Hat IH]; intros Hwf Hvis top;
    rewrite walk_dir, body_ok by (intros _; apply wf_names_nonempty, Hwf);
    rewrite gen_app_fst; cbn [fst]; apply in_or_app.
  - left. change (joinpath top [name]) with (os_path_join top name).
    apply in_map. apply kept_In. split; [apply scandir_nondirs_In, Hin|].
    intros Hh. apply Hvis in Hh. apply Forall_inv in Hh. exact Hh.
  - right. destruct (wf_entry_dir es Hwf) as [Hd Hall].
    destruct (Hall _ _ Hin) as [_ Hsub].
    apply gen_flat_map_In with (a := name).
    + intros name' _.
      destruct (with_entry_cases name'
                  (fun sub => os_walk (get_directory_file_paths_body h)
                                (os_path_join top name') sub)
                  ([], None) es) as [->|(sub' & Hin' & ->)]; [reflexivity|].
      apply walk_ends. apply (Hall _ _ Hin').
    + apply kept_In. split.
      * apply scandir_dirs_In. inversion Hat; subst; eexists; eassumption.
      * intros Hh. apply Hvis in Hh. apply Forall_inv in Hh. exact Hh.
    + rewrite (with_entry_found name _ _ es sub Hd Hin). rewrite joinpath_cons.
      apply IH; [assumption|]. intros Hh. apply Hvis in Hh.
      apply Forall_inv_tail in Hh. exact Hh.
Qed.

(** ** Paths determine the names they were built from *)

Lemma append_cancel_l (a x y : string) : a +:+ x = a +:+ y -> x = y.
Proof.
  induction a as [|c a IH]; [trivial|].
  rewrite !append_cons. intros [= Heq]. apply IH, Heq.
Qed.

Lemma name_ok_inv (n : string) :
  name_ok n = true -> n <> "" /\ has_sep n = false.
Proof.
  unfold name_ok. intros [Hn Hs]%andb_true_iff. apply negb_true_iff in Hs.
  split; [|assumption]. intros ->. discriminate.
Qed.

Lemma has_sep_startswith (n : string) : has_sep n = false -> startswith_sep n = false.
Proof. destruct n as [|c n]; simpl; [trivial|]. intros [H _]%orb_false_iff. exact H. Qed.

Lemma endswith_sep_append (a n : string) :
  n <> "" -> endswith_sep (a +:+ n) = endswith_sep n.
Proof.
  intros Hn. induction a as [|c a IH]; [reflexivity|].
  rewrite append_cons. simpl. destruct (a +:+ n) as [|c' s] eqn:Hs; [|exact IH].
  destruct a; [simpl in Hs; contradiction|discriminate].
Qed.

Lemma has_sep_endswith (n : string) : has_sep n = false -> endswith_sep n = false.
Proof.
  induction n as [|c n IH]; [trivial|]. simpl.
  intros [Hc Hn]%orb_false_iff. destruct n; [exact Hc|apply IH, Hn].
Qed.

Lemma os_path_join_name (a n : string) :
  name_ok n = true -> os_path_join a n = a +:+ sep_of a +:+ n.
Proof.
  intros [_ Hs]%name_ok_inv. unfold os_path_join, sep_of.
  rewrite (has_sep_startswith n Hs).
  destruct (String.eqb a "" || endswith_sep a); reflexivity.
Qed.

Lemma sep_of_join (a n : string) :
  name_ok n = true -> sep_of (os_path_join a n) = "/".
Proof.
  intros Hn. rewrite os_path_join_name by assumption.
  apply name_ok_inv in Hn as [Hne Hs].
  rewrite <- append_assoc. set (pre := a +:+ sep_of a). unfold sep_of.
  rewrite endswith_sep_append, (has_sep_endswith n Hs) by assumption.
  destruct (pre +:+ n) as [|c s] eqn:Heq; [|reflexivity].
  destruct pre; [simpl in Heq; contradiction|discriminate].
Qed.

Lemma joinpath_concat (segs : list string) : forall top,
  Forall (fun n => name_ok n = true) segs -> segs <> [] ->
  joinpath top segs = top +:+ sep_of top +:+ String.concat "/" segs.
Proof.
  induction segs as [|n segs IH]; intros top Hall Hne; [contradiction|].
  apply Forall_cons_iff in Hall as [Hn Hall]. rewrite joinpath_cons.
  destruct segs as [|m segs].
  - simpl. apply os_path_join_name, Hn.
  - rewrite IH by (assumption || discriminate).
    rewrite sep_of_join, os_path_join_name by assumption.
    change (String.concat "/" (n :: m :: segs))
      with (n +:+ "/" +:+ String.concat "/" (m :: segs)).
    rewrite !append_assoc. reflexivity.
Qed.

(** Two names free of ['/'], each followed by nothing or by a ['/']. *)
Lemma name_prefix_inj (a b ta tb : string) :
  has_sep a = false -> has_sep b = false ->
  (ta = "" \/ startswith_sep ta = true) ->
  (tb = "" \/ startswith_sep tb = true) ->
  a +:+ ta = b +:+ tb -> a = b /\ ta = tb.
Proof.
  revert b. induction a as [|x a IH]; intros [|y b] Ha Hb Hta Htb.
  - auto.
  - rewrite append_cons, append_empty_l. simpl in Hb.
    apply orb_false_iff in Hb as [Hy _]. intros ->.
    destruct Hta as [Hta|Hta]; [discriminate|]. simpl in Hta. congruence.
  - rewrite append_cons, append_empty_l. simpl in Ha.
    apply orb_false_iff in Ha as [Hx _]. intros <-.
    destruct Htb as [Htb|Htb]; [discriminate|]. simpl in Htb. congruence.
  - rewrite !append_cons. simpl in Ha, Hb.
    apply orb_false_iff in Ha as [_ Ha]. apply orb_false_iff in Hb as [_ Hb].
    intros [= -> Heq]. destruct (IH b Ha Hb Hta Htb Heq) as [-> ->]. auto.
Qed.

Lemma concat_sep_inj (s1 : list string) : forall s2,
  Forall (fun n => name_ok n = true) s1 ->
  Forall (fun n => name_ok n = true) s2 ->
  s1 <> [] -> s2 <> [] ->
  String.concat "/" s1 = String.concat "/" s2 -> s1 = s2.
Proof.
  induction s1 as [|n1 r1 IH]; intros [|n2 r2] H1 H2 Hne1 Hne2;
    try contradiction.
  apply Forall_cons_iff in H1 as [[_ Hn1]%name_ok_inv H1].
  apply Forall_cons_iff in H2 as [[_ Hn2]%name_ok_inv H2].
  assert (Hshape : forall n r,
            String.concat "/" (n :: r)
            = n +:+ match r with [] => "" | _ :: _ => "/" +:+ String.concat "/" r end).
  { intros n [|m r]; simpl; [rewrite append_empty_r|]; reflexivity. }
  rewrite !Hshape. intros Heq.
  apply name_prefix_inj in Heq as [-> Htail]; try assumption;
    [|destruct r1; [left|right]; reflexivity|destruct r2; [left|right]; reflexivity].
  destruct r1 as [|m1 r1], r2 as [|m2 r2]; try discriminate; [reflexivity|].
  f_equal. apply IH; try assumption; try discriminate.
  apply (append_cancel_l "/"), Htail.
Qed.

Lemma joinpath_inj (top : string) (s1 s2 : list string) :
  Forall (fun n => name_ok n = true) s1 ->
  Forall (fun n => name_ok n = true) s2 ->
  s1 <> [] -> s2 <> [] ->
  joinpath top s1 = joinpath top s2 -> s1 = s2.
Proof.
  intros H1 H2 Hne1 Hne2. rewrite !joinpath_concat by assumption.
  intros Heq. apply append_cancel_l, append_cancel_l in Heq.
  apply concat_sep_inj; assumption.
Qed.

Lemma file_at_names (segs : list string) (e : entry) :
  file_at segs e -> wf_entry e = true ->
  Forall (fun n => name_ok n = true) segs /\ segs <> [].
Proof.
  induction 1 as [name es Hin|name sub segs es Hin Hat IH]; intros Hwf;
    apply wf_entry_dir in Hwf as [_ Hall]; destruct (Hall _ _ Hin) as [Hn Hsub];
    (split; [|discriminate]).
  - constructor; [assumption|constructor].
  - constructor; [assumption|]. apply IH, Hsub.
Qed.

(** ** Hidden entries *)

Lemma get_directory_file_paths_wf (fs : filesystem) (top : string) (e : entry)
    (h : bool) :
  fs_tree fs top = Some e -> wf_entry e = true ->
  get_directory_file_paths fs top h
  = (fst (os_walk (get_directory_file_paths_body h) top e), None).
Proof.
  intros Hfs Hwf. unfold get_directory_file_paths. rewrite Hfs.
  rewrite <- (walk_ends h e Hwf top). apply surjective_pairing.
Qed.

(** C4: for a file of a well-formed tree reached from the root through
    names of which at least one begins with ['.'], the enumeration without
    [include_hidden] ends normally and does not yield its path, and the
    enumeration with [include_hidden] ends normally and yields it; the same
    holds of the paths that [sizes_paths] hands to the comparison, for the
    source tree as for the target tree. *)
Theorem hidden_entries_filtered (fs : filesystem) (top : string) (e : entry)
    (segs : list string) :
  fs_tree fs top = Some e -> wf_entry e = true ->
  file_at segs e -> Exists (fun s => hidden_name s = true) segs ->
  (exists ps_default ps_all,
     get_directory_file_paths fs top false = (ps_default, None) /\
     ~ In (joinpath top segs) ps_default /\
     get_directory_file_paths fs top true = (ps_all, None) /\
     In (joinpath top segs) ps_all) /\
  (forall cs, sizes_paths fs top false = (cs, None) ->
              ~ In (joinpath top segs) (map snd cs)) /\
  (forall cs, sizes_paths fs top true = (cs, None) ->
              In (joinpath top segs) (map snd cs)).
Proof.
  intros Hfs Hwf Hat Hhidden.
  pose proof (get_directory_file_paths_wf fs top e false Hfs Hwf) as Hdefault.
  pose proof (get_directory_file_paths_wf fs top e true Hfs Hwf) as Hall.
  assert (Hout : ~ In (joinpath top segs)
                     (fst (os_walk (get_directory_file_paths_body false) top e))).
  { intros (segs' & Hat' & Heq & Hvis)%walk_sound.
    destruct (file_at_names _ _ Hat Hwf) as [Hok Hne].
    destruct (file_at_names _ _ Hat' Hwf) as [Hok' Hne'].
    apply joinpath_inj in Heq; try assumption. subst segs'.
    specialize (Hvis eq_refl). apply List.Exists_exists in Hhidden as (s & Hs & Hhid).
    rewrite List.Forall_forall in Hvis. rewrite (Hvis s Hs) in Hhid. discriminate. }
  assert (Hin : In (joinpath top segs)
                   (fst (os_walk (get_directory_file_paths_body true) top e))).
  { apply walk_complete; [assumption..|discriminate]. }
  split; [|split].
  - eexists _, _. split; [exact Hdefault|]. split; [exact Hout|].
    split; [exact Hall|exact Hin].
  - intros cs [_ Hcs]%sizes_paths_ok. rewrite Hdefault in Hcs.
    injection Hcs as <-. exact Hout.
  - intros cs [_ Hcs]%sizes_paths_ok. rewrite Hall in Hcs.
    injection Hcs as <-. exact Hin.
Qed.

Lemma hidden_entries_filtered_witness :
  (exists ps_default ps_all,
     get_directory_file_paths scenario_hidden "s" false = (ps_default, None) /\
     ~ In (joinpath "s" ["a"; ".hidden"]) ps_default /\
     get_directory_file_paths scenario_hidden "s" true = (ps_all, None) /\
     In (joinpath "s" ["a"; ".hidden"]) ps_all) /\
  (forall cs, sizes_paths scenario_hidden "s" false = (cs, None) ->
              ~ In (joinpath "s" ["a"; ".hidden"]) (map snd cs)) /\
  (forall cs, sizes_paths scenario_hidden "s" true = (cs, None) ->
              In (joinpath "s" ["a"; ".hidden"]) (map snd cs)).
Proof.
  apply (hidden_entries_filtered scenario_hidden "s"
           (DirEntry [("a", DirEntry [("x.txt", FileEntry); (".hidden", FileEntry)])])
           ["a"; ".hidden"]).
  - reflexivity.
  - reflexivity.
  - apply file_below with (sub := DirEntry [("x.txt", FileEntry); (".hidden", FileEntry)]).
    + simpl. left. reflexivity.
    + apply file_here. simpl. right. left. reflexivity.
  - apply Exists_cons_tl, Exists_cons_hd. reflexivity.
Defined.

(** C9: when the name of the root begins with ['.'], the enumeration
    without [include_hidden] of a well-formed tree still ends normally, and
    it yields exactly the files reached from the root through names that do
    not begin with ['.']: only the names below the root are tested. *)
Theorem hidden_root_enumerated (fs : filesystem) (top : string) (e : entry) :
  hidden_name (os_path_basename top) = true ->
  fs_tree fs top = Some e -> wf_entry e = true ->
  exists ps,
    get_directory_file_paths fs top false = (ps, None) /\
    forall p,
      In p ps <->
      exists segs,
        file_at segs e /\ Forall (fun s => hidden_name s = false) segs /\
        p = joinpath top segs.
Proof.
  intros _ Hfs Hwf. eexists.
  split; [apply get_directory_file_paths_wf; eassumption|].
  intros p. split.
  - intros (segs & Hat & Heq & Hvis)%walk_sound. exists segs. auto.
  - intros (segs & Hat & Hvis & ->). apply walk_complete; auto.
Qed.

Lemma hidden_root_enumerated_witness :
  exists ps,
    get_directory_file_paths scenario_empty ".r" false = (ps, None) /\
    forall p,
      In p ps <->
      exists segs,
        file_at segs (DirEntry [("f", FileEntry); ("d", DirEntry [("g", FileEntry)])]) /\
        Forall (fun s => hidden_name s = false) segs /\
        p = joinpath ".r" segs.
Proof.
  apply (hidden_root_enumerated scenario_empty ".r"
           (DirEntry [("f", FileEntry); ("d", DirEntry [("g", FileEntry)])]));
    reflexivity.
Defined.

Example hidden_root_paths :
  get_directory_file_paths scenario_empty ".r" false = ([".r/f"; ".r/d/g"], None).
Proof. reflexivity. Qed.

(** * Further properties *)

(** ** [dict_of_lists] *)

Lemma dict_of_lists_loop_nonempty (items : list (Z * string)) :
  forall d : gmap Z (list string),
  (forall k l, d !! k = Some l -> l <> []) ->
  forall k l, dict_of_lists_loop items d !! k = Some l -> l <> [].
Proof.
  induction items as [|[key value] items IH]; intros d Hd k l; [apply Hd|].
  simpl dict_of_lists_loop.
  destruct (defaultdict_getitem d key) as [l0 d1] eqn:Hget.
  apply IH. intros k' l'.
  destruct (decide (key = k')) as [<-|Hne].
  - rewrite lookup_insert_eq. intros [= <-]. destruct l0; discriminate.
  - rewrite lookup_insert_ne by assumption.
    replace d1 with (snd (defaultdict_getitem d key)) by (rewrite Hget; reflexivity).
    unfold defaultdict_getitem. destruct (d !! key); simpl; [apply Hd|].
    rewrite lookup_insert_ne by assumption. apply Hd.
Qed.

(** X1: [dict_of_lists] on a generator that ends normally returns a
    dictionary whose keys are exactly the first items of the pairs, each
    mapped to the second items of the pairs with that first item, in the
    order of the pairs and with repetitions kept; no key is mapped to an
    empty list. *)
Theorem dict_of_lists_lookup (items : list (Z * string)) :
  exists d,
    dict_of_lists (items, None) = Ok d /\
    (forall k,
       d !! k = match bucket_of items k with
                | [] => None
                | l => Some l
                end) /\
    (forall k q, (exists l, d !! k = Some l /\ In q l) <-> In (k, q) items).
Proof.
  exists (dict_of_lists_loop items ∅). split; [reflexivity|].
  assert (Hlookup : forall k,
    dict_of_lists_loop items ∅ !! k
    = match bucket_of items k with [] => None | l => Some l end).
  { intros k. pose proof (dict_of_lists_bucket items k) as Hb.
    destruct (dict_of_lists_loop items ∅ !! k) as [l|] eqn:Hk; simpl in Hb.
    - apply dict_of_lists_loop_nonempty in Hk;
        [|intros k' l'; rewrite lookup_empty; discriminate].
      rewrite <- Hb. destruct l; [contradiction|reflexivity].
    - rewrite <- Hb. reflexivity. }
  split; [exact Hlookup|]. intros k q. rewrite Hlookup, <- bucket_of_In.
  destruct (bucket_of items k) as [|q0 l0]; split.
  - intros (l & [=] & _).
  - contradiction.
  - intros (l & [= <-] & Hin). exact Hin.
  - intros Hin. eexists. split; [reflexivity|exact Hin].
Qed.

(** ** The order of the candidates and of the result *)

Lemma ltb_false_leb (a b : string) : String.ltb a b = false -> String.leb b a = true.
Proof.
  unfold String.ltb, String.leb. rewrite (String.compare_antisym a b).
  destruct (String.compare b a); simpl; congruence.
Qed.

Lemma ltb_true_leb (a b : string) : String.ltb a b = true -> String.leb a b = true.
Proof. unfold String.ltb, String.leb. destruct (String.compare a b); congruence. Qed.

Lemma ltb_irrefl (a : string) : String.ltb a a = false.
Proof.
  unfold String.ltb. assert (Hrefl : String.compare a a = Eq).
  { induction a as [|c a IH]; simpl; [reflexivity|].
    unfold Ascii.compare. rewrite N.compare_refl. exact IH. }
  rewrite Hrefl. reflexivity.
Qed.

Lemma leb_trans (a b c : string) :
  String.leb a b = true -> String.leb b c = true -> String.leb a c = true.
Proof.
  intros Hab Hbc. apply Is_true_true. apply Is_true_true in Hab, Hbc.
  exact (transitivity (R := String.le) Hab Hbc).
Qed.

Lemma insert_sorted_by_path (x : Z * string) (l : list (Z * string)) :
  StronglySorted by_path l ->
  StronglySorted by_path (insert_sorted String.ltb itemgetter_1 x l).
Proof.
  induction 1 as [|y l Hsorted IH Hall]; simpl.
  - constructor; constructor.
  - unfold itemgetter_1 at 1 2. destruct (String.ltb (snd y) (snd x)) eqn:Hlt.
    + constructor; [exact IH|].
      eapply Permutation_Forall; [symmetry; apply insert_sorted_perm|].
      constructor; [apply ltb_true_leb, Hlt|exact Hall].
    + apply ltb_false_leb in Hlt. constructor; [constructor; assumption|].
      constructor; [exact Hlt|].
      eapply List.Forall_impl; [|exact Hall]. intros z Hz.
      unfold by_path in *. eapply leb_trans; eassumption.
Qed.

Lemma sorted_by_path (l : list (Z * string)) :
  StronglySorted by_path (sorted String.ltb itemgetter_1 l).
Proof.
  induction l as [|x l IH]; simpl; [constructor|]. apply insert_sorted_by_path, IH.
Qed.

Lemma insert_sorted_filter (p : string) (x : Z * string) (l : list (Z * string)) :
  List.filter (fun c => String.eqb (snd c) p) (insert_sorted String.ltb itemgetter_1 x l)
  = List.filter (fun c => String.eqb (snd c) p) (x :: l).
Proof.
  induction l as [|y l IH]; [reflexivity|]. simpl insert_sorted.
  unfold itemgetter_1 at 1 2. destruct (String.ltb (snd y) (snd x)) eqn:Hlt;
    [|reflexivity].
  simpl in *. rewrite IH.
  destruct (String.eqb_spec (snd x) p) as [Hx|Hx]; [|reflexivity].
  destruct (String.eqb_spec (snd y) p) as [Hy|Hy]; [|reflexivity].
  rewrite Hx, Hy, ltb_irrefl in Hlt. discriminate.
Qed.

(** X2: the sequence the loop of [find_unmatched] iterates,
    [sorted(..., key=itemgetter(1))], holds the entries of the source
    enumeration, each as often as there, in ascending order of path; the
    entries of one path keep the order of the enumeration. *)
Theorem candidates_in_path_order (l : list (Z * string)) :
  Permutation (sorted String.ltb itemgetter_1 l) l /\
  StronglySorted (fun x y => String.leb (snd x) (snd y) = true)
    (sorted String.ltb itemgetter_1 l) /\
  (forall p,
     List.filter (fun c => String.eqb (snd c) p) (sorted String.ltb itemgetter_1 l)
     = List.filter (fun c => String.eqb (snd c) p) l).
Proof.
  split; [apply sorted_perm|]. split; [apply sorted_by_path|].
  intros p. induction l as [|x l IH]; [reflexivity|].
  simpl sorted. rewrite insert_sorted_filter. simpl. rewrite IH. reflexivity.
Qed.





(** ** [file_match] *)


(** X4: [file_match] compares the file with the paths of the list in
    order and stops at the first one with the same content: it returns
    [True] after comparing with that path and the paths before it, and
    whatever follows in the list is not touched, readable or not.  When no
    path of the list has the same content it returns [False] after
    comparing with each. *)
Theorem file_match_stops_at_first_match (fs : filesystem) (p : string)
    (pre : list string) (w : world) :
  is_Some (fs_file fs p) ->
  Forall (fun q => is_Some (fs_file fs q)) pre ->
  Forall (fun q => same_content fs p q = false) pre ->
  (forall q post,
     same_content fs p q = true ->
     file_match fs p (pre ++ q :: post) w
     = (Ok true,
        mkWorld (stdout w) (progress w)
                (cmp_calls w ++ map (pair p) (pre ++ [q])))) /\
  file_match fs p pre w
  = (Ok false,
     mkWorld (stdout w) (progress w) (cmp_calls w ++ map (pair p) pre)).
Proof.
  intros Hp Hread Hdiff. revert w.
  induction Hread as [|q0 pre Hq0 Hread IH]; intros w.
  - split.
    + intros q post Hsame. simpl file_match. unfold bind.
      assert (Hq : is_Some (fs_file fs q)).
      { unfold same_content in Hsame. destruct (fs_file fs p); [|discriminate].
        destruct (fs_file fs q); [eexists; reflexivity|discriminate]. }
      rewrite filecmp_cmp_run, Hsame by assumption. reflexivity.
    + simpl. unfold ret. rewrite app_nil_r. destruct w; reflexivity.
  - apply Forall_cons_iff in Hdiff as [Hq0diff Hdiff].
    specialize (IH Hdiff). split.
    + intros q post Hsame. simpl file_match. unfold bind.
      rewrite filecmp_cmp_run, Hq0diff by assumption.
      destruct (IH (mkWorld (stdout w) (progress w) (cmp_calls w ++ [(p, q0)])))
        as [IHmatch _].
      rewrite (IHmatch q post Hsame). simpl. rewrite <- app_assoc. reflexivity.
    + simpl file_match. unfold bind.
      rewrite filecmp_cmp_run, Hq0diff by assumption.
      destruct (IH (mkWorld (stdout w) (progress w) (cmp_calls w ++ [(p, q0)])))
        as [_ IHnone].
      rewrite IHnone. simpl. rewrite <- app_assoc. reflexivity.
Qed.

Lemma file_match_stops_at_first_match_witness :
  (forall q post,
     same_content scenario_pair "s/p/one" q = true ->
     file_match scenario_pair "s/p/one" (["s/p/two"] ++ q :: post) initial_world
     = (Ok true, mkWorld "" None ([] ++ map (pair "s/p/one") (["s/p/two"] ++ [q])))) /\
  file_match scenario_pair "s/p/one" ["s/p/two"] initial_world
  = (Ok false, mkWorld "" None ([] ++ map (pair "s/p/one") ["s/p/two"])).
Proof.
  apply (file_match_stops_at_first_match scenario_pair "s/p/one" ["s/p/two"]
           initial_world).
  - eexists. reflexivity.
  - repeat constructor. eexists. reflexivity.
  - repeat constructor.
Defined.



(** ** [sizes_paths] *)





(** ** Errors of the enumeration *)

(** X7: when the enumeration of the source tree raises, and when it ends
    normally and that of the target tree raises, [find_unmatched] raises
    that exception having printed [Preprocessing...] and nothing more: no
    progress bar, no comparison. *)
Theorem find_unmatched_enumeration_error `{PyFloat} (fs : filesystem)
    (l r : string) (h : bool) (w : world) (e : exn) :
  (snd (sizes_paths fs l h) = Some e \/
   snd (sizes_paths fs l h) = None /\ snd (sizes_paths fs r h) = Some e) ->
  find_unmatched fs l r h w
  = (Raise e,
     mkWorld (stdout w +:+ "Preprocessing..." +:+ newline) (progress w) (cmp_calls w)).
Proof.
  unfold find_unmatched, bind, print, print_end, lift, dict_of_lists, collect.
  intros [Hl|[Hl Hr]]; rewrite Hl; simpl; [reflexivity|].
  rewrite Hr. reflexivity.
Qed.

Lemma find_unmatched_enumeration_error_witness :
  find_unmatched
    (mount [("s", DirEntry [("a", FileEntry)]); ("t", DirEntry [])] [])
    "s" "t" false initial_world
  = (Raise OSError, mkWorld ("" +:+ "Preprocessing..." +:+ newline) None []).
Proof.
  apply (find_unmatched_enumeration_error
           (mount [("s", DirEntry [("a", FileEntry)]); ("t", DirEntry [])] [])
           "s" "t" false initial_world OSError).
  left. reflexivity.
Defined.

(** ** Trees whose files all have an equal *)







(** ** The exceptions [find_unmatched] can raise *)

Lemma ends_bind {A B : Type} (P : world -> Prop) (Q : A -> world -> Prop)
    (R : B -> world -> Prop) (E : exn -> Prop) (m : M A) (k : A -> M B) :
  ends P m Q E -> (forall a, ends (Q a) (k a) R E) -> ends P (bind m k) R E.
Proof.
  intros Hm Hk w HP. specialize (Hm w HP). unfold bind.
  destruct (m w) as [[a|e] w1]; [apply Hk, Hm|exact Hm].
Qed.

Lemma ends_ret {A : Type} (P : world -> Prop) (E : exn -> Prop) (a : A) :
  ends P (ret a) (fun _ => P) E.
Proof. intros w HP. exact HP. Qed.

Lemma not_hidden_raises (names : list string) (x : exn) :
  not_hidden names = Raise x -> x = IndexError.
Proof.
  induction names as [|f names IH]; simpl; [discriminate|].
  destruct f as [|c f]; simpl; [congruence|].
  destruct (not_hidden names) as [rest|y]; simpl; [discriminate|].
  intros [= ->]. apply IH. reflexivity.
Qed.

Lemma body_raises (h : bool) (top : string) (dirs files : list string) (x : exn) :
  get_directory_file_paths_body h top dirs files = Raise x -> x = IndexError.
Proof.
  unfold get_directory_file_paths_body. destruct h; simpl; [discriminate|].
  destruct (not_hidden files) as [fl|y] eqn:Hfl; simpl.
  - destruct (not_hidden dirs) as [dl|y] eqn:Hdl; simpl; [discriminate|].
    intros [= <-]. eapply not_hidden_raises, Hdl.
  - intros [= <-]. eapply not_hidden_raises, Hfl.
Qed.

Lemma gen_flat_map_raises {A B : Type} (f : A -> gen B) (l : list A) (x : exn) :
  snd (gen_flat_map f l) = Some x -> exists a, In a l /\ snd (f a) = Some x.
Proof.
  induction l as [|a l IH]; simpl; [discriminate|].
  unfold gen_app. destruct (snd (f a)) as [y|] eqn:Ha.
  - rewrite Ha. intros [= ->]. exists a. auto.
  - simpl. intros Hx. destruct (IH Hx) as (a' & Ha' & Hx'). exists a'. auto.
Qed.

Lemma walk_raises (h : bool) (e : entry) : forall top x,
  snd (os_walk (get_directory_file_paths_body h) top e) = Some x -> x = IndexError.
Proof.
  induction e as [|es IH] using entry_induction; intros top x; [discriminate|].
  rewrite walk_dir.
  destruct (get_directory_file_paths_body h top (scandir_dirs es) (scandir_nondirs es))
    as [[dl out]|y] eqn:Hbody.
  - rewrite gen_app_fst. simpl. intros (name & _ & Hx)%gen_flat_map_raises.
    destruct (with_entry_cases name
                (fun sub => os_walk (get_directory_file_paths_body h)
                              (os_path_join top name) sub)
                ([], None) es) as [Hmiss|(sub & Hin & Hfound)].
    + rewrite Hmiss in Hx. discriminate.
    + rewrite Hfound in Hx.
      exact (proj1 (List.Forall_forall _ _) IH _ Hin _ _ Hx).
  - simpl. intros [= <-]. eapply body_raises, Hbody.
Qed.

Lemma sizes_of_raises (fs : filesystem) (paths : list string) (fin : option exn)
    (x : exn) :
  snd (sizes_of fs paths fin) = Some x -> x = OSError \/ fin = Some x.
Proof.
  induction paths as [|p paths IH]; simpl; [auto|].
  unfold os_path_getsize, os_stat. destruct (fs_file fs p); simpl.
  - exact IH.
  - intros [= <-]. auto.
Qed.

Lemma sizes_paths_raises (fs : filesystem) (top : string) (h : bool) (x : exn) :
  snd (sizes_paths fs top h) = Some x -> io_exn x.
Proof.
  unfold sizes_paths, get_directory_file_paths, io_exn.
  intros [Hx|Hx]%sizes_of_raises; [auto|]. right.
  destruct (fs_tree fs top) as [e|]; [|discriminate].
  eapply walk_raises, Hx.
Qed.

Lemma ends_file_match (fs : filesystem) (p : string) (bucket : list string) :
  ends (fun w => is_Some (progress w)) (file_match fs p bucket)
       (fun _ w => is_Some (progress w)) io_exn.
Proof.
  induction bucket as [|q bucket IH]; simpl; [apply ends_ret|].
  eapply ends_bind with (Q := fun _ w => is_Some (progress w)).
  - intros w HP. unfold filecmp_cmp, bind, lift, os_stat, do_cmp, ret, io_exn.
    destruct (fs_file fs p); [|auto]. destruct (fs_file fs q); [|auto].
    simpl. destruct (negb _); exact HP.
  - intros [|]; [apply ends_ret|exact IH].
Qed.

Lemma ends_update_progress `{PyFloat} (x : pyfloat) :
  ends (fun w => is_Some (progress w)) (update_progress x)
       (fun _ w => is_Some (progress w)) io_exn.
Proof.
  intros w [p Hp]. unfold update_progress, bind, get_progress. rewrite Hp.
  simpl. eexists. reflexivity.
Qed.

Lemma ends_for_enumerate `{PyFloat} (fs : filesystem) (n : Z)
    (cs : list (Z * string)) : forall i s,
  (cs <> [] -> n <> 0) ->
  ends (fun w => is_Some (progress w))
       (for_enumerate (find_unmatched_body fs n) i cs s)
       (fun _ w => is_Some (progress w)) io_exn.
Proof.
  induction cs as [|c cs IH]; intros i s Hn; simpl; [apply ends_ret|].
  assert (Hn0 : n <> 0) by (apply Hn; discriminate).
  eapply ends_bind with (Q := fun _ w => is_Some (progress w));
    [|intros s'; apply IH; intros _; exact Hn0].
  unfold find_unmatched_body. destruct c as [size_l file_path_l], s as [d um].
  destruct (defaultdict_getitem d size_l) as [bucket d1].
  eapply ends_bind; [apply ends_file_match|]. intros matched.
  eapply ends_bind with (Q := fun _ w => is_Some (progress w)).
  { intros w HP. unfold lift, py_truediv.
    destruct (Z.eqb_spec n 0); [contradiction|exact HP]. }
  intros x. eapply ends_bind; [apply ends_update_progress|]. intros u.
  apply (ends_ret (fun w => is_Some (progress w))).
Qed.

Lemma ends_find_unmatched `{PyFloat} (fs : filesystem) (l r : string) (h : bool) :
  ends (fun _ => True) (find_unmatched fs l r h) (fun _ _ => True) io_exn.
Proof.
  intros w _. unfold find_unmatched.
  unfold bind at 1. unfold print at 1, print_end at 1.
  unfold bind at 1. unfold lift at 1, collect.
  destruct (snd (sizes_paths fs l h)) as [x|] eqn:Hl;
    [simpl; eapply sizes_paths_raises, Hl|].
  simpl. unfold bind at 1. unfold lift at 1, dict_of_lists, collect.
  destruct (snd (sizes_paths fs r h)) as [x|] eqn:Hr;
    [simpl; eapply sizes_paths_raises, Hr|].
  simpl. unfold bind at 1. unfold print at 1, print_end at 1.
  unfold bind at 1. unfold begin_progress, bind, print_end, sys_stdout_flush, ret,
    set_progress. cbn [stdout progress cmp_calls].
  set (cs := sorted String.ltb itemgetter_1 (fst (sizes_paths fs l h))).
  set (w1 := mkWorld _ _ _).
  pose proof (ends_for_enumerate fs (Z.of_nat (length cs)) cs 0
                (dict_of_lists_loop (fst (sizes_paths fs r h)) ∅, [])) as Hloop.
  specialize (Hloop ltac:(destruct cs; [congruence|simpl; lia]) w1
                    ltac:(eexists; reflexivity)).
  destruct (for_enumerate _ 0 cs _ w1) as [[s|x] w2]; [|exact Hloop].
  destruct Hloop as [p Hp]. unfold end_progress, bind, get_progress. rewrite Hp.
  exact I.
Qed.

(** X10: whatever the file system and the state it starts in, an
    exception that leaves [find_unmatched] is an [OSError] or an
    [IndexError]: it never raises [ZeroDivisionError] (the division by the
    number of candidates is evaluated only in the loop over them), never
    [NameError] (the global [progress] is read only after [begin_progress]
    has set it) and never [SystemExit]. *)
Theorem find_unmatched_raises_only `{PyFloat} (fs : filesystem) (l r : string)
    (h : bool) (w : world) (e : exn) :
  fst (find_unmatched fs l r h w) = Raise e ->
  (e = OSError \/ e = IndexError) /\
  e <> ZeroDivisionError /\ e <> NameError /\ (forall code, e <> SystemExit code).
Proof.
  intros Hraise. pose proof (ends_find_unmatched fs l r h w I) as Hends.
  destruct (find_unmatched fs l r h w) as [[us|x] w']; simpl in Hraise;
    [discriminate|].
  injection Hraise as ->. split; [exact Hends|].
  destruct Hends as [-> | ->]; repeat split; try discriminate; intros; discriminate.
Qed.

Lemma find_unmatched_raises_only_witness :
  (OSError = OSError \/ OSError = IndexError) /\
  OSError <> ZeroDivisionError /\ OSError <> NameError /\
  (forall code, OSError <> SystemExit code).
Proof.
  apply (find_unmatched_raises_only
           (mount [("s", DirEntry [("a", FileEntry)]); ("t", DirEntry [])] [])
           "s" "t" false initial_world OSError).
  reflexivity.
Defined.





(** ** The progress bar *)

Lemma concat_empty_cons (x : string) (l : list string) :
  String.concat "" (x :: l) = x +:+ String.concat "" l.
Proof.
  destruct l as [|y l]; simpl; [rewrite append_empty_r|]; reflexivity.
Qed.

Lemma str_repeat_add (s : string) (a b : Z) :
  0 <= a -> 0 <= b -> str_repeat s a +:+ str_repeat s b = str_repeat s (a + b).
Proof.
  intros Ha Hb. unfold str_repeat. rewrite Z2Nat.inj_add by assumption.
  induction (Z.to_nat a) as [|k IH]; [reflexivity|].
  change (repeat s (S k + Z.to_nat b)) with (s :: repeat s (k + Z.to_nat b)).
  change (repeat s (S k)) with (s :: repeat s k).
  rewrite !concat_empty_cons, append_assoc, IH. reflexivity.
Qed.

Lemma filecmp_cmp_frame (fs : filesystem) (p q : string) (shallow : bool)
    (w : world) :
  stdout (snd (filecmp_cmp fs p q shallow w)) = stdout w /\
  progress (snd (filecmp_cmp fs p q shallow w)) = progress w.
Proof.
  unfold filecmp_cmp, bind, lift, os_stat, do_cmp, ret.
  destruct (fs_file fs p); [|auto]. destruct (fs_file fs q); [|auto].
  simpl. destruct (shallow && _); [auto|]. destruct (negb _); auto.
Qed.

Lemma file_match_frame (fs : filesystem) (p : string) (bucket : list string) :
  forall w,
    stdout (snd (file_match fs p bucket w)) = stdout w /\
    progress (snd (file_match fs p bucket w)) = progress w.
Proof.
  induction bucket as [|q bucket IH]; intros w; [auto|].
  simpl file_match. unfold bind.
  pose proof (filecmp_cmp_frame fs p q false w) as [Hout Hprog].
  destruct (filecmp_cmp fs p q false w) as [[[|]|x] w1]; simpl in *; auto.
  destruct (IH w1) as [Hout1 Hprog1]. split; congruence.
Qed.

Lemma find_unmatched_body_output `{PyFloat} fs n i c s w s' w' p :
  find_unmatched_body fs n i c s w = (Ok s', w') ->
  progress w = Some p ->
  stdout w' = stdout w +:+ str_repeat "*" (cells_of (int_truediv (100 * i) n) - p) /\
  progress w' = Some (cells_of (int_truediv (100 * i) n)).
Proof.
  unfold find_unmatched_body. destruct c as [size_l file_path_l], s as [d um].
  destruct (defaultdict_getitem d size_l) as [bucket d1].
  intros Hrun Hp.
  apply bind_inv_ok in Hrun as (matched & w1 & Hmatch & Hrun).
  pose proof (file_match_frame fs file_path_l bucket w) as [Hout Hprog].
  rewrite Hmatch in Hout, Hprog. simpl in Hout, Hprog.
  apply bind_inv_ok in Hrun as (x & w2 & Hdiv & Hrun).
  unfold lift, py_truediv in Hdiv. destruct (n =? 0); [discriminate|].
  injection Hdiv as <- <-.
  unfold update_progress, bind, get_progress in Hrun.
  rewrite Hprog, Hp in Hrun. simpl in Hrun. injection Hrun as _ <-.
  simpl. rewrite Hout, append_empty_r. auto.
Qed.

Lemma for_enumerate_output `{PyFloat} fs n cs : forall i s w s' w' p,
  for_enumerate (find_unmatched_body fs n) i cs s w = (Ok s', w') ->
  progress w = Some p ->
  StronglySorted Z.le (p :: cells_from n i (length cs) ++ [pbar_char_len]) ->
  exists last,
    p <= last <= pbar_char_len /\
    stdout w' = stdout w +:+ str_repeat "*" (last - p) /\
    progress w' = Some last.
Proof.
  induction cs as [|c cs IH]; intros i s w s' w' p Hrun Hp Hchain.
  - simpl in Hrun. injection Hrun as _ <-. exists p.
    apply StronglySorted_inv in Hchain as [_ Hall]. apply Forall_inv in Hall.
    split; [lia|]. rewrite Z.sub_diag. split; [|exact Hp].
    symmetry. apply append_empty_r.
  - simpl for_enumerate in Hrun.
    apply bind_inv_ok in Hrun as (s1 & w1 & Hbody & Hrun).
    destruct (find_unmatched_body_output _ _ _ _ _ _ _ _ _ Hbody Hp) as [Hout1 Hp1].
    simpl in Hchain. apply StronglySorted_inv in Hchain as [Hchain Hall].
    apply Forall_inv in Hall.
    destruct (IH _ _ _ _ _ _ Hrun Hp1 Hchain) as (last & Hlast & Hout & Hplast).
    exists last. split; [lia|]. split; [|exact Hplast].
    rewrite Hout, Hout1, append_assoc, str_repeat_add by lia.
    f_equal. f_equal. lia.
Qed.

(** X12: when [find_unmatched] returns and the cell counts computed in
    the loop never decrease and stay between 0 and the width of the bar,
    what it has printed is [Preprocessing...], [Comparing files...], the
    empty bar followed by the backspaces that return to its first cell,
    exactly as many stars as the bar is wide, the closing bracket and an
    empty line. *)
Theorem find_unmatched_output `{PyFloat} (fs : filesystem) (l r : string)
    (h : bool) (w w' : world) (unmatched : list string) :
  find_unmatched fs l r h w = (Ok unmatched, w') ->
  StronglySorted Z.le
    (0 :: cells_from (Z.of_nat (length (fst (sizes_paths fs l h)))) 0
            (length (fst (sizes_paths fs l h)))
       ++ [pbar_char_len]) ->
  stdout w' =
    stdout w +:+ "Preprocessing..." +:+ newline
    +:+ "Comparing files..." +:+ newline
    +:+ "[" +:+ str_repeat " " pbar_char_len +:+ "]"
    +:+ str_repeat (chr 8) (pbar_char_len + 1)
    +:+ str_repeat "*" pbar_char_len +:+ "]" +:+ newline +:+ newline.
Proof.
  unfold find_unmatched. intros Hrun Hchain.
  apply bind_inv_ok in Hrun as ([] & w1 & Hprint1 & Hrun).
  apply bind_inv_ok in Hrun as (cs & w2 & Hsort & Hrun).
  apply bind_inv_ok in Hrun as (d & w3 & Hdict & Hrun).
  apply bind_inv_ok in Hrun as ([] & w4 & Hprint2 & Hrun).
  apply bind_inv_ok in Hrun as ([] & w5 & Hbegin & Hrun).
  apply bind_inv_ok in Hrun as (s & w6 & Hloop & Hrun).
  apply bind_inv_ok in Hrun as ([] & w7 & Hend & Hret).
  unfold ret in Hret. injection Hret as _ <-.
  unfold print, print_end in Hprint1, Hprint2.
  injection Hprint1 as <-. unfold lift, collect in Hsort.
  destruct (snd (sizes_paths fs l h)); [discriminate|].
  simpl in Hsort. injection Hsort as <- <-.
  unfold lift in Hdict. injection Hdict as _ <-. injection Hprint2 as <-.
  unfold begin_progress, bind, print_end, sys_stdout_flush, ret, set_progress
    in Hbegin.
  injection Hbegin as <-. cbn [stdout progress cmp_calls] in Hloop.
  rewrite (Permutation_length (sorted_perm String.ltb itemgetter_1 _)) in Hloop.
  eapply for_enumerate_output in Hloop as (last & Hlast & Hout & Hplast);
    [|reflexivity|].
  2: { rewrite (Permutation_length (sorted_perm String.ltb itemgetter_1 _)).
       exact Hchain. }
  unfold end_progress, bind, get_progress in Hend. rewrite Hplast in Hend.
  unfold print, print_end, sys_stdout_flush, ret in Hend. injection Hend as <-.
  cbn [stdout] in *. rewrite Hout, Z.sub_0_r.
  assert (Hstars : str_repeat "*" last +:+ str_repeat "*" (pbar_char_len - last)
                   = str_repeat "*" pbar_char_len).
  { rewrite str_repeat_add by lia. f_equal. lia. }
  rewrite <- Hstars, append_empty_r, !append_assoc. reflexivity.
Qed.

Lemma find_unmatched_output_witness :
  stdout (snd (find_unmatched scenario_pair "s" "t" false initial_world)) =
    "" +:+ "Preprocessing..." +:+ newline
    +:+ "Comparing files..." +:+ newline
    +:+ "[" +:+ str_repeat " " pbar_char_len +:+ "]"
    +:+ str_repeat (chr 8) (pbar_char_len + 1)
    +:+ str_repeat "*" pbar_char_len +:+ "]" +:+ newline +:+ newline.
Proof.
  apply (find_unmatched_output scenario_pair "s" "t" false initial_world
           (snd (find_unmatched scenario_pair "s" "t" false initial_world))
           ["s/p/two"]).
  - vm_compute. reflexivity.
  - change (StronglySorted Z.le [0; 0; 37; 75]). repeat constructor; lia.
Defined.

(** ** The enumeration as a list of name lists *)

Lemma with_entry_apply {B C : Type} (g : B -> C) (name : string)
    (found : entry -> B) (missing : B) (es : list (string * entry)) :
  g (with_entry name found missing es)
  = with_entry name (fun sub => g (found sub)) (g missing) es.
Proof.
  induction es as [|[n sub] es IH]; simpl; [reflexivity|].
  destruct (String.eqb n name); [reflexivity|exact IH].
Qed.

Lemma with_entry_ext {B : Type} (name : string) (f g : entry -> B) (missing : B)
    (es : list (string * entry)) :
  (forall sub, In (name, sub) es -> f sub = g sub) ->
  with_entry name f missing es = with_entry name g missing es.
Proof.
  induction es as [|[n sub] es IH]; intros Hfg; simpl; [reflexivity|].
  destruct (String.eqb_spec n name) as [->|Hne].
  - apply Hfg. left. reflexivity.
  - apply IH. intros sub' Hin. apply Hfg. right. exact Hin.
Qed.

Lemma gen_flat_map_fst {A B : Type} (f : A -> gen B) (l : list A) :
  (forall a, In a l -> snd (f a) = None) ->
  fst (gen_flat_map f l) = flat_map (fun a => fst (f a)) l.
Proof.
  induction l as [|a l IH]; intros Hall; simpl; [reflexivity|].
  unfold gen_app. rewrite (Hall a) by (left; reflexivity). simpl.
  rewrite IH; [reflexivity|]. intros a' Ha'. apply Hall. right. exact Ha'.
Qed.

Lemma map_flat_map {A B C : Type} (g : B -> C) (f : A -> list B) (l : list A) :
  map g (flat_map f l) = flat_map (fun a => map g (f a)) l.
Proof.
  induction l as [|a l IH]; simpl; [reflexivity|]. rewrite map_app, IH. reflexivity.
Qed.

(** The paths the walk of a well-formed tree yields are the paths of the
    name lists of [files_of], in the same order. *)
Lemma walk_files_of (h : bool) (e : entry) :
  wf_entry e = true ->
  forall top,
    fst (os_walk (get_directory_file_paths_body h) top e)
    = map (joinpath top) (files_of h e).
Proof.
  induction e as [|es IH] using entry_induction; intros Hwf top; [reflexivity|].
  rewrite walk_dir, body_ok by (intros _; apply wf_names_nonempty, Hwf).
  rewrite gen_app_fst. cbn [fst files_of]. rewrite map_app, map_map.
  f_equal. destruct (wf_entry_dir es Hwf) as [_ Hall].
  rewrite gen_flat_map_fst, map_flat_map.
  - apply flat_map_ext. intros name.
    rewrite (with_entry_apply (@fst (list string) (option exn)) name _ ([], None) es).
    rewrite (with_entry_apply (map (joinpath top)) name _ [] es).
    apply with_entry_ext. intros sub Hin.
    rewrite map_map.
    rewrite (proj1 (List.Forall_forall _ _) IH _ Hin (proj2 (Hall _ _ Hin))).
    reflexivity.
  - intros name _.
    destruct (with_entry_cases name
                (fun sub => os_walk (get_directory_file_paths_body h)
                              (os_path_join top name) sub)
                ([], None) es) as [->|(sub & Hin & ->)]; [reflexivity|].
    apply walk_ends. apply (Hall _ _ Hin).
Qed.

Lemma files_of_In (h : bool) (e : entry) : forall segs,
  In segs (files_of h e) -> file_at segs e.
Proof.
  induction e as [|es IH] using entry_induction; intros segs; [contradiction|].
  cbn [files_of]. intros [Hin|Hin]%in_app_or.
  - apply in_map_iff in Hin as (name & <- & [Hname _]%kept_In).
    constructor. apply scandir_nondirs_In, Hname.
  - apply in_flat_map in Hin as (name & _ & Hin).
    destruct (with_entry_cases name
                (fun sub => map (cons name) (files_of h sub)) [] es)
      as [Hmiss|(sub & Hsub & Hfound)].
    + rewrite Hmiss in Hin. contradiction.
    + rewrite Hfound in Hin. apply in_map_iff in Hin as (segs' & <- & Hin).
      econstructor; [exact Hsub|].
      exact (proj1 (List.Forall_forall _ _) IH _ Hsub _ Hin).
Qed.

Lemma distinct_NoDup (names : list string) :
  distinct names = true -> List.NoDup names.
Proof.
  induction names as [|n names IH]; simpl; [constructor|].
  intros [Hfresh Hd]%andb_true_iff. constructor; [|apply IH, Hd].
  intros Hin. apply negb_true_iff in Hfresh.
  assert (Hex : existsb (String.eqb n) names = true).
  { apply existsb_exists. exists n. split; [exact Hin|apply String.eqb_refl]. }
  congruence.
Qed.

Lemma NoDup_map_fst_filter {A B : Type} (f : A * B -> bool) (l : list (A * B)) :
  List.NoDup (map fst l) -> List.NoDup (map fst (List.filter f l)).
Proof.
  induction l as [|x l IH]; simpl; [trivial|].
  intros Hnd. apply NoDup_cons_iff in Hnd as [Hx Hnd].
  destruct (f x); simpl; [|apply IH, Hnd].
  constructor; [|apply IH, Hnd].
  intros (y & Hy & [Hin _]%filter_In)%in_map_iff.
  apply Hx. apply in_map_iff. exists y. auto.
Qed.

Lemma kept_NoDup (h : bool) (names : list string) :
  List.NoDup names -> List.NoDup (kept h names).
Proof. unfold kept. destruct h; [trivial|apply List.NoDup_filter]. Qed.

Lemma NoDup_map_on {A B : Type} (f : A -> B) (l : list A) :
  (forall x y, In x l -> In y l -> f x = f y -> x = y) ->
  List.NoDup l -> List.NoDup (map f l).
Proof.
  induction l as [|x l IH]; intros Hinj Hnd; simpl; [constructor|].
  apply NoDup_cons_iff in Hnd as [Hx Hnd]. constructor.
  - intros (y & Hy & Hin)%in_map_iff.
    apply Hx. rewrite (Hinj x y); auto; [left; reflexivity|right; exact Hin].
  - apply IH; [|exact Hnd]. intros y z Hy Hz. apply Hinj; right; assumption.
Qed.

Lemma NoDup_app_intro {A : Type} (l k : list A) :
  List.NoDup l -> List.NoDup k -> (forall x, In x l -> ~ In x k) ->
  List.NoDup (l ++ k).
Proof.
  induction l as [|x l IH]; intros Hl Hk Hdisj; simpl; [exact Hk|].
  apply NoDup_cons_iff in Hl as [Hx Hl]. constructor.
  - intros [Hin|Hin]%in_app_or; [contradiction|].
    apply (Hdisj x); [left; reflexivity|exact Hin].
  - apply IH; [assumption..|]. intros y Hy. apply Hdisj. right. exact Hy.
Qed.

Lemma NoDup_flat_map {A B : Type} (g : A -> list B) (l : list A) :
  List.NoDup l ->
  (forall a, In a l -> List.NoDup (g a)) ->
  (forall a b x, In a l -> In b l -> In x (g a) -> In x (g b) -> a = b) ->
  List.NoDup (flat_map g l).
Proof.
  induction l as [|a l IH]; intros Hnd Hg Hdisj; simpl; [constructor|].
  apply NoDup_cons_iff in Hnd as [Ha Hnd]. apply NoDup_app_intro.
  - apply Hg. left. reflexivity.
  - apply IH; [exact Hnd| |].
    + intros b Hb. apply Hg. right. exact Hb.
    + intros b c x Hb Hc. apply Hdisj; right; assumption.
  - intros x Hx (b & Hb & Hxb)%in_flat_map.
    apply Ha. rewrite (Hdisj a b x); auto; [left; reflexivity|right; exact Hb].
Qed.

Lemma files_of_NoDup (h : bool) (e : entry) :
  wf_entry e = true -> List.NoDup (files_of h e).
Proof.
  induction e as [|es IH] using entry_induction; intros Hwf; [constructor|].
  destruct (wf_entry_dir es Hwf) as [Hd Hall].
  apply distinct_NoDup in Hd. cbn [files_of].
  set (G := fun name => with_entry name
                          (fun sub => map (cons name) (files_of h sub)) [] es).
  assert (Hhead : forall name x, In x (G name) -> exists segs, x = name :: segs).
  { intros name x Hx. unfold G in Hx. cbv beta in Hx.
    destruct (with_entry_cases name
                (fun sub => map (cons name) (files_of h sub)) [] es)
      as [Hmiss|(sub & Hsub & Hfound)].
    - rewrite Hmiss in Hx. contradiction.
    - rewrite Hfound in Hx. apply in_map_iff in Hx as (segs & <- & _). eauto. }
  apply NoDup_app_intro.
  - apply NoDup_map_on; [intros x y _ _ [= ->]; reflexivity|].
    apply kept_NoDup, NoDup_map_fst_filter, Hd.
  - apply NoDup_flat_map.
    + apply kept_NoDup, NoDup_map_fst_filter, Hd.
    + intros name _. unfold G. cbv beta.
      destruct (with_entry_cases name
                  (fun sub => map (cons name) (files_of h sub)) [] es)
        as [Hmiss|(sub & Hsub & Hfound)]; [rewrite Hmiss; constructor|].
      rewrite Hfound.
      apply NoDup_map_on; [intros x y _ _ [= ->]; reflexivity|].
      apply (proj1 (List.Forall_forall _ _) IH _ Hsub). apply (Hall _ _ Hsub).
    + intros a b x _ _ Ha Hb.
      destruct (Hhead a x Ha) as [sa ->]. destruct (Hhead b _ Hb) as [sb [= -> _]].
      reflexivity.
  - intros x (name & <- & _)%in_map_iff (dname & _ & Hx)%in_flat_map.
    fold (G dname) in Hx. unfold G in Hx. cbv beta in Hx.
    destruct (with_entry_cases dname
                (fun sub => map (cons dname) (files_of h sub)) [] es)
      as [Hmiss|(sub & Hsub & Hfound)].
    + rewrite Hmiss in Hx. contradiction.
    + rewrite Hfound in Hx. apply in_map_iff in Hx as (segs & [= _ ->] & Hsegs).
      apply files_of_In in Hsegs. inversion Hsegs.
Qed.

(** X13: the enumeration of a well-formed tree ends normally and yields
    no path twice, with and without [include_hidden]: every file is listed
    once. *)
Theorem each_file_listed_once (fs : filesystem) (top : string) (e : entry)
    (h : bool) :
  fs_tree fs top = Some e -> wf_entry e = true ->
  exists ps,
    get_directory_file_paths fs top h = (ps, None) /\ List.NoDup ps.
Proof.
  intros Hfs Hwf. eexists.
  split; [apply get_directory_file_paths_wf; eassumption|].
  rewrite walk_files_of by assumption.
  apply NoDup_map_on; [|apply files_of_NoDup, Hwf].
  intros s1 s2 H1%files_of_In H2%files_of_In.
  destruct (file_at_names _ _ H1 Hwf) as [Hok1 Hne1].
  destruct (file_at_names _ _ H2 Hwf) as [Hok2 Hne2].
  apply joinpath_inj; assumption.
Qed.

Lemma each_file_listed_once_witness :
  exists ps,
    get_directory_file_paths scenario_hidden "s" true = (ps, None) /\ List.NoDup ps.
Proof.
  apply (each_file_listed_once scenario_hidden "s"
           (DirEntry [("a", DirEntry [("x.txt", FileEntry); (".hidden", FileEntry)])])
           true); reflexivity.
Defined.

(** ** The flag only adds paths *)

Lemma sublist_List_filter {A : Type} (f : A -> bool) (l : list A) :
  sublist (List.filter f l) l.
Proof.
  induction l as [|x l IH]; simpl; [constructor|].
  destruct (f x); [apply sublist_skip|apply sublist_cons]; exact IH.
Qed.

Lemma sublist_List_map {A B : Type} (f : A -> B) (l1 l2 : list A) :
  sublist l1 l2 -> sublist (map f l1) (map f l2).
Proof.
  induction 1; simpl; [constructor|apply sublist_skip|apply sublist_cons];
    assumption.
Qed.

Lemma sublist_flat_map {A B : Type} (f g : A -> list B) (l1 l2 : list A) :
  (forall a, sublist (f a) (g a)) -> sublist l1 l2 ->
  sublist (flat_map f l1) (flat_map g l2).
Proof.
  intros Hfg. induction 1 as [|x l1 l2 Hsub IH|x l1 l2 Hsub IH]; simpl.
  - constructor.
  - apply sublist_app; [apply Hfg|exact IH].
  - apply sublist_inserts_l. exact IH.
Qed.

Lemma kept_sublist (names : list string) : sublist (kept false names) (kept true names).
Proof. apply sublist_List_filter. Qed.

Lemma files_of_sublist (e : entry) : sublist (files_of false e) (files_of true e).
Proof.
  induction e as [|es IH] using entry_induction; [constructor|].
  cbn [files_of]. apply sublist_app.
  - apply sublist_List_map, kept_sublist.
  - apply sublist_flat_map; [|apply kept_sublist]. intros name.
    clear -IH. induction es as [|[n sub] es IHes]; simpl; [constructor|].
    apply Forall_cons_iff in IH as [Hsub IH].
    destruct (String.eqb n name); [|apply IHes, IH].
    apply sublist_List_map. exact Hsub.
Qed.

(** X14: for a well-formed tree both enumerations end normally, and the
    one without [include_hidden] is the one with [include_hidden] with some
    paths left out: the flag adds paths and changes neither the other paths
    nor their order. *)
Theorem include_hidden_only_adds (fs : filesystem) (top : string) (e : entry) :
  fs_tree fs top = Some e -> wf_entry e = true ->
  exists ps_default ps_all,
    get_directory_file_paths fs top false = (ps_default, None) /\
    get_directory_file_paths fs top true = (ps_all, None) /\
    sublist ps_default ps_all.
Proof.
  intros Hfs Hwf. eexists _, _.
  split; [apply get_directory_file_paths_wf; eassumption|].
  split; [apply get_directory_file_paths_wf; eassumption|].
  rewrite !walk_files_of by assumption.
  apply sublist_List_map, files_of_sublist.
Qed.

Lemma include_hidden_only_adds_witness :
  exists ps_default ps_all,
    get_directory_file_paths scenario_hidden "s" false = (ps_default, None) /\
    get_directory_file_paths scenario_hidden "s" true = (ps_all, None) /\
    sublist ps_default ps_all.
Proof.
  apply (include_hidden_only_adds scenario_hidden "s"
           (DirEntry [("a", DirEntry [("x.txt", FileEntry); (".hidden", FileEntry)])]));
    reflexivity.
Defined.

(** ** Paths begin with the root *)




(** ** The order in which directories are listed *)





